(** * SPH test drivers of [src/sph.cpp]: brute-force and block-grid variants

    A shallow embedding of [SPHTestBase], [SPHTestBruteForce] and
    [SPHTestPangu].  The C++ type [real] is modelled by exact rationals
    ([Q]): every arithmetic operation is the exact one, there is no
    rounding, no infinity and no NaN.  Equalities between computed
    numbers are therefore stated with [==] ([Qeq]). *)

From Stdlib Require Import QArith Qminmax Qround Qpower ZArith Lia Lqa.
From stdpp Require Import base option list gmap.

#[local] Open Scope Q_scope.
#[local] Unset Default Proof Using.

(** ** Vectors *)

(** [VectorND<3, T>]: the three named lanes. *)
Record VectorND (T : Type) := mkVector { x : T; y : T; z : T }.
Arguments mkVector {T} _ _ _.
Arguments x {T} _.
Arguments y {T} _.
Arguments z {T} _.

Abbreviation Vector3 := (VectorND Q).
Abbreviation Vector3i := (VectorND Z).

Module Vec.
(** [Vector3(a)]: every lane set to [a]. *)
Definition splat {T} (a : T) : VectorND T := mkVector a a a.

Definition zero : Vector3 := splat 0.

Definition add (u v : Vector3) : Vector3 :=
  mkVector (x u + x v) (y u + y v) (z u + z v).

Definition sub (u v : Vector3) : Vector3 :=
  mkVector (x u - x v) (y u - y v) (z u - z v).

(** scalar * vector *)
Definition scale (a : Q) (v : Vector3) : Vector3 :=
  mkVector (a * x v) (a * y v) (a * z v).

(** vector * scalar *)
Definition times (v : Vector3) (a : Q) : Vector3 :=
  mkVector (x v * a) (y v * a) (z v * a).

Definition length2 (v : Vector3) : Q :=
  x v * x v + y v * y v + z v * z v.

(** [.template cast<real>()] *)
Definition cast (v : Vector3i) : Vector3 :=
  mkVector (inject_Z (x v)) (inject_Z (y v)) (inject_Z (z v)).

Definition addi (u v : Vector3i) : Vector3i :=
  mkVector (x u + x v)%Z (y u + y v)%Z (z u + z v)%Z.

(** Modelled from the spec: the comparison operators of [VectorND]
    (declared in taichi's headers, not under src/) hold when they hold
    on every lane ("componentwise").  This is [operator<=]. *)
Definition leb (u v : Vector3) : bool :=
  Qle_bool (x u) (x v) && Qle_bool (y u) (y v) && Qle_bool (z u) (z v).

Definition Qlt_bool (a b : Q) : bool := negb (Qle_bool b a).

(** Modelled from the spec: [operator<] of [VectorND], on every lane. *)
Definition ltb (u v : Vector3) : bool :=
  Qlt_bool (x u) (x v) && Qlt_bool (y u) (y v) && Qlt_bool (z u) (z v).

(** lane-wise [==] *)
Definition eqv (u v : Vector3) : Prop :=
  x u == x v /\ y u == y v /\ z u == z v.
End Vec.

Infix "+v" := Vec.add (at level 50, left associativity).
Infix "-v" := Vec.sub (at level 50, left associativity).
Infix "*v" := Vec.scale (at level 40, left associativity).
Infix "v*" := Vec.times (at level 40, left associativity).
Infix "=v=" := Vec.eqv (at level 70, no associativity).

(** ** Particles and the constants of the driver *)

(** [struct Particle { Vector3f position, velocity; }].  A [Vector3f] is
    four floats wide; the code keeps two scalars in the spare lane:
    [position[3]] holds the inverse density and [velocity[3]] the
    pressure.  Modelled from the spec: the declaration of [Vector3f] is
    not under src/, so the spare lane is a field of its own
    ([position_3], [velocity_3]) and vector arithmetic acts on the three
    named lanes. *)
Record Particle := mkParticle {
  position : Vector3;
  position_3 : Q;
  velocity : Vector3;
  velocity_3 : Q
}.

Definition set_position (p : Particle) (v : Vector3) : Particle :=
  mkParticle v (position_3 p) (velocity p) (velocity_3 p).
Definition set_position_3 (p : Particle) (a : Q) : Particle :=
  mkParticle (position p) a (velocity p) (velocity_3 p).
Definition set_velocity (p : Particle) (v : Vector3) : Particle :=
  mkParticle (position p) (position_3 p) v (velocity_3 p).
Definition set_velocity_3 (p : Particle) (a : Q) : Particle :=
  mkParticle (position p) (position_3 p) (velocity p) a.

Definition set_x (v : Vector3) (a : Q) : Vector3 := mkVector a (y v) (z v).
Definition set_y (v : Vector3) (a : Q) : Vector3 := mkVector (x v) a (z v).
Definition set_z (v : Vector3) (a : Q) : Vector3 := mkVector (x v) (y v) a.

Definition N : Z := 20.
Definition grid_resolution : Vector3i := mkVector N N N.

(** The data members of [SPHTestBase] that only the constructor writes.
    [current_frame], the one member written afterwards, lives in the run
    state below; [node_range] is never assigned and is left out. *)
Record SPHTestBase := mkBase {
  dx : Q; inv_dx : Q; dt : Q;
  h : Q; inv_h : Q;
  frame_dt : Q;
  total_frames : Z;
  domain_size : Vector3;
  gravity : Vector3
}.

(** [SPHTestBase::SPHTestBase()] *)
Definition SPHTestBase_new : SPHTestBase :=
  let dx := 1 / inject_Z (x grid_resolution) in
  let h := dx / 2 in
  {| gravity := mkVector 0 (-100) 0;
     dx := dx;
     frame_dt := 1 # 10;
     dt := 3 # 10000;
     inv_dx := 1 / dx;
     total_frames := 128;
     domain_size := Vec.times (Vec.cast grid_resolution) dx;
     h := h;
     inv_h := 1 / h |}.

(** ** [SPHTestBruteForce::substep] *)

Section BruteForce.
(** [pi] is a constant of taichi's headers. *)
Variable pi : Q.
Variable cfg : SPHTestBase.

(** lines 73-75: the three constants of [substep] *)
Definition c : Q := 315 / (64 * pi * h cfg ^ 9).

Definition rho0 : Q := 1.

Definition k : Q := 1 # 100000000.

(** [dpos2] for the pair [p], [q] *)
Definition dpos2_of (p q : Particle) : Q :=
  Vec.length2 (position q -v position p).

(** body of the inner loop of the density pass *)
Definition rho_add (p : Particle) (rho : Q) (q : Particle) : Q :=
  let dpos2 := dpos2_of p q in
  if Qlt_le_dec dpos2 (h cfg * h cfg)
  then rho + Qmax 0 ((h cfg * h cfg - dpos2) ^ 3)
  else rho.

(** [rho] after the inner loop and [rho *= c] *)
Definition rho_of (ps : list Particle) (p : Particle) : Q :=
  fold_left (rho_add p) ps 0 * c.

(** one iteration of the outer loop of the density pass *)
Definition density_update (ps : list Particle) (p : Particle) : Particle :=
  let rho := rho_of ps p in
  set_velocity_3 (set_position_3 p (1 / rho)) (k * ((rho / rho0) ^ 7 - 1)).

(** [for (auto &p : particles)]: the element at index [i] is updated in
    place, reading the vector as it is at that moment. *)
Definition in_place (f : list Particle -> Particle -> Particle)
    (ps : list Particle) (i : nat) : list Particle :=
  match ps !! i with
  | Some p => <[i := f ps p]> ps
  | None => ps
  end.

(** a pass that visits the indices in the given order *)
Definition pass_in (f : list Particle -> Particle -> Particle)
    (order : list nat) (ps : list Particle) : list Particle :=
  fold_left (in_place f) order ps.

(** lines 76-90 *)
Definition density_pass (ps : list Particle) : list Particle :=
  pass_in density_update (seq 0 (length ps)) ps.

(** body of the inner loop of the force pass *)
Definition pressure_add (p : Particle) (pressure : Vector3) (q : Particle)
    : Vector3 :=
  let inv_rho := position_3 p in
  let dpos := position q -v position p in
  let dpos2 := Vec.length2 dpos in
  if Qlt_le_dec dpos2 (h cfg * h cfg)
  then
    let inv_rho1 := position_3 q in
    let grad := (-6 * (h cfg * h cfg - dpos2)) *v dpos in
    pressure +v
      (velocity_3 p * inv_rho * inv_rho + velocity_3 q * inv_rho1 * inv_rho1)
        *v grad
  else pressure.

(** [pressure] after the inner loop ([Vector3f pressure;] starts at 0) *)
Definition pressure_of (ps : list Particle) (p : Particle) : Vector3 :=
  fold_left (pressure_add p) ps Vec.zero.

(** lines 107-112 *)
Definition integrate (ps : list Particle) (p : Particle) : Particle :=
  let force := (k *v pressure_of ps p +v gravity cfg) v* dt cfg in
  let p := set_velocity_3 p 0 in
  let p := set_position_3 p 0 in
  let p := set_velocity p (velocity p +v force v* dt cfg) in
  set_position p (position p +v velocity p v* dt cfg).

(** lines 113-116 *)
Definition clamp_y_low (p : Particle) : Particle :=
  if Qlt_le_dec (y (position p)) (h cfg / 2)
  then set_velocity (set_position p (set_y (position p) (h cfg / 2)))
         (set_y (velocity p) (Qmax (y (velocity p)) 0))
  else p.

(** lines 117-120 *)
Definition clamp_x_low (p : Particle) : Particle :=
  if Qlt_le_dec (x (position p)) 0
  then set_velocity (set_position p (set_x (position p) 0))
         (set_x (velocity p) (Qmax (x (velocity p)) 0))
  else p.

(** lines 121-124 *)
Definition clamp_z_low (p : Particle) : Particle :=
  if Qlt_le_dec (z (position p)) 0
  then set_velocity (set_position p (set_z (position p) 0))
         (set_z (velocity p) (Qmax (z (velocity p)) 0))
  else p.

(** lines 125-128 *)
Definition clamp_x_high (p : Particle) : Particle :=
  if Qlt_le_dec 1 (x (position p))
  then set_velocity (set_position p (set_x (position p) 1))
         (set_x (velocity p) (Qmin (x (velocity p)) 0))
  else p.

(** lines 129-132 *)
Definition clamp_z_high (p : Particle) : Particle :=
  if Qlt_le_dec 1 (z (position p))
  then set_velocity (set_position p (set_z (position p) 1))
         (set_z (velocity p) (Qmin (z (velocity p)) 0))
  else p.

(** lines 113-132: the five clamps, in this order *)
Definition clamp (p : Particle) : Particle :=
  clamp_z_high (clamp_x_high (clamp_z_low (clamp_x_low (clamp_y_low p)))).

(** one iteration of the outer loop of the force pass *)
Definition force_update (ps : list Particle) (p : Particle) : Particle :=
  clamp (integrate ps p).

(** lines 92-133, visiting the indices in the given order *)
Definition force_pass_in (order : list nat) (ps : list Particle)
    : list Particle :=
  pass_in force_update order ps.

(** lines 92-133, in the order of the vector *)
Definition force_pass (ps : list Particle) : list Particle :=
  force_pass_in (seq 0 (length ps)) ps.

(** [SPHTestBruteForce::substep] *)
Definition BruteForce_substep (ps : list Particle) : list Particle :=
  force_pass (density_pass ps).
End BruteForce.

(** ** The driver: [SPHTestBase::advance] *)

(** [OptiXParticle{Vector4(position, radius)}] *)
Definition OptiXParticle : Type := Vector3 * Q.

(** [scene.particles] *)
Definition OptiXScene : Type := list OptiXParticle.

(** What changes while a test runs: the member [current_frame], the
    data of the variant ([particles] or [grid]) and, as the record of
    the effect of [write_to_binary_file], the files written so far, the
    latest last.  A file name is represented by the frame number that
    [get_filename] formats into it. *)
Record Run (V : Type) := mkRun {
  current_frame : Z;
  body : V;
  written : list (Z * OptiXScene)
}.
Arguments mkRun {V} _ _ _.
Arguments current_frame {V} _.
Arguments body {V} _.
Arguments written {V} _.

(** the effect of [write_to_binary_file(scene, fn)] *)
Definition write_to_binary_file {V} (scene : OptiXScene) (fn : Z) (s : Run V)
    : Run V :=
  mkRun (current_frame s) (body s) (written s ++ [(fn, scene)]).

(** [get_filename(frame)] formats [current_frame], not its argument. *)
Definition get_filename {V} (s : Run V) (frame : Z) : Z := current_frame s.

(** The two pure virtual members.  [substep] gives [None] when a
    [TC_ASSERT] fails. *)
Class SPHTest (V : Type) := {
  substep : SPHTestBase -> Run V -> option (Run V);
  output : SPHTestBase -> Z -> Run V -> Run V
}.

(** How a call may end. *)
Inductive outcome (A : Type) : Type :=
| Returns (a : A)
| Aborts          (* a TC_ASSERT failed *)
| OutOfFuel.      (* the model ran out of fuel *)
Arguments Returns {A} _.
Arguments Aborts {A}.
Arguments OutOfFuel {A}.

Section Advance.
Context {V : Type} `{SPHTest V}.
Variable cfg : SPHTestBase.

(** [for (int i = 0; i < frame_dt / dt; i++) substep();] from the
    test of the condition at counter [i] on.  The [int] counter is
    converted to [real] for the comparison. *)
Fixpoint advance_loop (fuel : nat) (i : Z) (s : Run V) : outcome (Run V) :=
  match fuel with
  | O => OutOfFuel
  | S fuel =>
      if Qlt_le_dec (inject_Z i) (frame_dt cfg / dt cfg)
      then match substep cfg s with
           | Some s => advance_loop fuel (i + 1) s
           | None => Aborts
           end
      else Returns s
  end.

(** [SPHTestBase::advance] *)
Definition advance (fuel : nat) (s : Run V) : outcome (Run V) :=
  match advance_loop fuel 0 s with
  | Returns s =>
      let s := mkRun (current_frame s + 1)%Z (body s) (written s) in
      Returns (output cfg (get_filename s (current_frame s)) s)
  | Aborts => Aborts
  | OutOfFuel => OutOfFuel
  end.

(** [n] successive calls of [substep] *)
Fixpoint substeps (n : nat) (s : Run V) : option (Run V) :=
  match n with
  | O => Some s
  | S n => match substep cfg s with
           | Some s => substeps n s
           | None => None
           end
  end.
End Advance.

(** ** [SPHTestBruteForce] as a variant *)

(** [SPHTestBruteForce::output] *)
Definition BruteForce_output (cfg : SPHTestBase) (fn : Z)
    (s : Run (list Particle)) : Run (list Particle) :=
  let scene :=
    fold_left
      (fun scene p => scene ++ [(position p v* 10, h cfg * 10)])
      (body s) [] in
  write_to_binary_file scene fn s.

#[export] Instance BruteForce (pi : Q) : SPHTest (list Particle) := {
  substep cfg s :=
    Some (mkRun (current_frame s) (BruteForce_substep pi cfg (body s))
            (written s));
  output := BruteForce_output
}.

(** ** [SPHTestPangu]: the block grid *)

#[export] Instance Vector3i_eq_dec : EqDecision (VectorND Z).
Proof. solve_decision. Defined.

#[export] Instance Vector3i_countable : Countable (VectorND Z).
Proof.
  refine (inj_countable' (fun v => (x v, y v, z v))
            (fun t => mkVector t.1.1 t.1.2 t.2) _).
  intros []; reflexivity.
Defined.

(** [TBlock<char, Particle>]: [particle_count] is the length of
    [particles]; [nodes] is the array of [char] field nodes. *)
Record Block := mkBlock {
  base_coord : Vector3i;
  nodes : list Z;
  particles : list Particle
}.

(** Modelled from the spec: [TBlock::add_particle] (taichi_grid.h is not
    under src/) copies the particle into the block's particle buffer, at
    its end.  The capacity of the buffer is not modelled. *)
Definition add_particle (b : Block) (p : Particle) : Block :=
  mkBlock (base_coord b) (nodes b) (particles b ++ [p]).

(** [std::memcpy(dst, src, n)] on arrays of bytes *)
Definition memcpy (dst src : list Z) (n : nat) : list Z :=
  take n src ++ drop n dst.

(** [Grid::Ancestors]: the blocks of the previous generation around a
    block, each possibly absent. *)
Record Ancestors := mkAncestors { data : list (option Block) }.

(** Modelled from the spec: [Ancestors::operator[]] looks a block up by
    its offset in {-1,0,1}^3; the layout of [data] is taken row-major. *)
Definition ancestor_index (offset : Vector3i) : nat :=
  Z.to_nat (9 * (x offset + 1) + 3 * (y offset + 1) + (z offset + 1)).

(** [an[offset]] *)
Definition ancestor_at (an : Ancestors) (offset : Vector3i) : option Block :=
  mjoin (data an !! ancestor_index offset).

Section Pangu.
Variable cfg : SPHTestBase.
(** [Block::size], a constant of taichi_grid.h *)
Variable Block_size : Vector3i.

(** [particle_range[0]] and [particle_range[1]] of block [b] *)
Definition particle_range (b : Block) : Vector3 * Vector3 :=
  (Vec.cast (base_coord b) -v Vec.splat (1 # 2),
   Vec.cast (Vec.addi (base_coord b) Block_size) -v Vec.splat (1 # 2)).

(** the test of lines 179-180 *)
Definition in_particle_range (particle_range : Vector3 * Vector3)
    (p : Particle) : bool :=
  let grid_pos := position p v* inv_dx cfg in
  Vec.leb particle_range.1 grid_pos && Vec.ltb grid_pos particle_range.2.

(** lines 176-183: the particles of one ancestor *)
Definition gather (particle_range : Vector3 * Vector3) (b : Block)
    (ab : Block) : Block :=
  fold_left
    (fun b p =>
       if in_particle_range particle_range p then add_particle b p else b)
    (particles ab) b.

(** The function passed to [grid.advance]: [b] is the block of the new
    generation, [an] its ancestors.  [None] when the [TC_ASSERT]
    fails. *)
Definition block_task (b : Block) (an : Ancestors) : option Block :=
  match ancestor_at an (Vec.splat 0%Z) with
  | None => None
  | Some self =>
      let b :=
        mkBlock (base_coord b)
          (memcpy (nodes b) (nodes self) (length (nodes b)))
          (particles b) in
      let particle_range := particle_range b in
      Some (fold_left
              (fun b ab => match ab with
                           | None => b
                           | Some ab => gather particle_range b ab
                           end)
              (data an) b)
  end.

(** Modelled from the spec: the 3^3 offsets of the blocks around a
    block, itself included, in the order of [data]. *)
Definition offsets : list Vector3i :=
  ox ← [-1; 0; 1]%Z; oy ← [-1; 0; 1]%Z; oz ← [-1; 0; 1]%Z;
  [mkVector ox oy oz].

(** Modelled from the spec: [TaichiGrid] (taichi_grid.h is not under
    src/) is a sparse map from block coordinates to blocks, and the
    ancestors of a block are the blocks of the previous generation at
    the 3^3 coordinates around it. *)
Definition ancestors_of (grid : gmap (VectorND Z) Block) (coord : Vector3i)
    : Ancestors :=
  mkAncestors
    ((fun o =>
        grid !! mkVector (x coord + x o * x Block_size)%Z
                         (y coord + y o * y Block_size)%Z
                         (z coord + z o * z Block_size)%Z) <$> offsets).

(** Modelled from the spec: the block of the new generation that
    replaces [old] has the same coordinate, a node array of the same
    size and an empty particle buffer. *)
Definition new_block (old : Block) : Block :=
  mkBlock (base_coord old) ((fun _ => 0%Z) <$> nodes old) [].

(** Modelled from the spec: [grid.advance(task, false)] builds the new
    generation by running [task] on a new block for every block of the
    previous generation, reading the previous generation only.  A
    failed [TC_ASSERT] in a task ends the run. *)
Definition grid_advance (grid : gmap (VectorND Z) Block)
    : option (gmap (VectorND Z) Block) :=
  let done :=
    (fun old => block_task (new_block old)
                  (ancestors_of grid (base_coord old))) <$> grid in
  if decide (map_Forall (fun _ r => is_Some r) done)
  then Some (omap id done)
  else None.

(** Modelled from the spec: [grid.gather_particles()] lists the
    particles of every block. *)
Definition gather_particles (grid : gmap (VectorND Z) Block)
    : list Particle :=
  map_to_list grid ≫= (fun cb => particles cb.2).

(** [SPHTestPangu::output] *)
Definition Pangu_output (fn : Z) (s : Run (gmap (VectorND Z) Block))
    : Run (gmap (VectorND Z) Block) :=
  let scene :=
    fold_left
      (fun scene p => scene ++ [(position p v* 3, 3 # 10)])
      (gather_particles (body s)) [] in
  write_to_binary_file scene fn s.

(** [SPHTestPangu::substep].  The [GridScratchPad] built at line 166
    is never read and is left out, as is the empty loop of lines
    185-187. *)
Definition Pangu_substep (s : Run (gmap (VectorND Z) Block))
    : option (Run (gmap (VectorND Z) Block)) :=
  let s := mkRun (current_frame s + 1)%Z (body s) (written s) in
  match grid_advance (body s) with
  | None => None
  | Some grid =>
      let s := mkRun (current_frame s) grid (written s) in
      Some (Pangu_output (get_filename s (current_frame s)) s)
  end.
End Pangu.

#[export] Instance Pangu (Block_size : Vector3i)
    : SPHTest (gmap (VectorND Z) Block) := {
  substep cfg s := Pangu_substep cfg Block_size s;
  output cfg fn s := Pangu_output fn s
}.

(** ** Notions used in the statements *)


(** the number of iterations of the loop of [advance] *)
Definition substeps_per_frame (cfg : SPHTestBase) : nat :=
  Z.to_nat (Qceiling (frame_dt cfg / dt cfg)).

(** what [advance] does after the loop *)
Definition finish_frame {V} `{SPHTest V} (cfg : SPHTestBase) (s : Run V)
    : Run V :=
  let s := mkRun (current_frame s + 1)%Z (body s) (written s) in
  output cfg (get_filename s (current_frame s)) s.

(** a variant that only counts the calls of [substep] *)
Definition Counting : SPHTest nat := {|
  substep _ s := Some (mkRun (current_frame s) (S (body s)) (written s));
  output _ _ s := s
|}.




(** the particles of the ancestors that are present, in the order of
    [an.data] *)
Definition ancestor_particles (an : Ancestors) : list Particle :=
  omap id (data an) ≫= particles.

(** ** Inputs of the examples *)

(** the binary32 number nearest to pi *)
Definition pi_f : Q := 13176795 # 4194304.

(** a particle at rest, its spare lanes cleared *)
Definition at_rest (a b d : Q) : Particle :=
  mkParticle (mkVector a b d) 0 Vec.zero 0.

(** a single particle in the middle of the domain *)
Definition p_mid : Particle := at_rest (1 # 2) (1 # 2) (1 # 2).

(** two particles closer than [h = 1/40]: one at rest on the floor *)
Definition p_low : Particle := at_rest (1 # 2) (1 # 80) (1 # 2).

(** and one at rest a hundredth above it *)
Definition p_high : Particle := at_rest (1 # 2) (9 # 400) (1 # 2).

(** a particle above the domain, moving up *)
Definition p_above : Particle :=
  mkParticle (mkVector (1 # 2) 2 (1 # 2)) 0 (mkVector 0 1 0) 0.

(** a particle below the floor plane, moving down *)
Definition p_below : Particle :=
  mkParticle (mkVector (1 # 2) (1 # 100) (1 # 2)) 0 (mkVector 0 (-1) 0) 0.

(** a grid of one block of 2 x 2 x 2 cells that holds one particle *)
Definition one_block : gmap (VectorND Z) Block :=
  {[ mkVector 0%Z 0%Z 0%Z :=
       mkBlock (mkVector 0%Z 0%Z 0%Z) [0; 0; 0; 0; 0; 0; 0; 0]%Z
         [at_rest (1 # 20) (1 # 20) (1 # 20)] ]}.

(** an [Ancestors] with the block itself only *)
Definition only_self (b : Block) : Ancestors :=
  mkAncestors (replicate 13 None ++ Some b :: replicate 13 None).

(** two blocks of 2 x 2 x 2 cells, adjacent along x *)
Definition block_lower : Block :=
  mkBlock (mkVector 0%Z 0%Z 0%Z) [0; 0; 0; 0; 0; 0; 0; 0]%Z [].

Definition block_upper : Block :=
  mkBlock (mkVector 2%Z 0%Z 0%Z) [0; 0; 0; 0; 0; 0; 0; 0]%Z [].


(** ** Further notions *)

(** the box the five clamps keep a particle in: above the floor plane
    and between the four walls *)
Definition in_box (cfg : SPHTestBase) (p : Particle) : Prop :=
  h cfg / 2 <= y (position p) /\
  (0 <= x (position p) /\ x (position p) <= 1) /\
  (0 <= z (position p) /\ z (position p) <= 1).

(** two particles with the same position and the same velocity: they
    may differ in the spare lanes *)
Definition same_motion (p q : Particle) : Prop :=
  position p = position q /\ velocity p = velocity q.

(** a property of the state a call returns; an abort satisfies it, an
    exhausted fuel does not *)
Definition on_return {A} (P : A -> Prop) (o : outcome A) : Prop :=
  match o with
  | Returns a => P a
  | Aborts => True
  | OutOfFuel => False
  end.

(** the frame numbers [frame + 1], ..., [frame + n] *)
Definition next_frames (frame : Z) (n : nat) : list Z :=
  (fun t => (frame + 1 + Z.of_nat t)%Z) <$> seq 0 n.

Section Task.
Context {V : Type} `{SPHTest V}.
Variable cfg : SPHTestBase.

(** the loop of the task [sph], lines 309-311:
    [for (int t = 0; t < sph->total_frames; t++) sph->advance();]
    with [frames] calls of [advance] left; [fuel] is the fuel of each
    call *)
Fixpoint run_frames (fuel : nat) (frames : nat) (s : Run V)
    : outcome (Run V) :=
  match frames with
  | O => Returns s
  | S frames =>
      match advance cfg fuel s with
      | Returns s => run_frames fuel frames s
      | Aborts => Aborts
      | OutOfFuel => OutOfFuel
      end
  end.

Definition sph_loop (fuel : nat) (s : Run V) : outcome (Run V) :=
  run_frames fuel (Z.to_nat (total_frames cfg)) s.
End Task.

(** where [m] substeps take a particle when no pressure and no clamp
    acts on it: the velocity gains [gravity * dt * dt] in every substep
    and the position then gains the new velocity times [dt] *)
Definition free_fall (cfg : SPHTestBase) (p : Particle) (m : nat) : Particle :=
  let n := inject_Z (Z.of_nat m) in
  mkParticle
    (position p +v velocity p v* (n * dt cfg)
     +v gravity cfg v* (n * (n + 1) * (1 # 2) * dt cfg * dt cfg * dt cfg))
    0
    (velocity p +v gravity cfg v* (n * (dt cfg * dt cfg)))
    0.

(** ** The task [sph2d], lines 203-298 *)

Module Sph2d.

(** [Vector2] *)
Record Vector := mkVector { x : Q; y : Q }.

(** the local [struct Particle] of the task *)
Record Particle := mkParticle {
  position : Vector;
  velocity : Vector;
  pressure : Q;
  inv_density : Q
}.

Definition splat (a : Q) : Vector := mkVector a a.

Definition add (u v : Vector) : Vector := mkVector (x u + x v) (y u + y v).

Definition sub (u v : Vector) : Vector := mkVector (x u - x v) (y u - y v).

(** scalar * vector *)
Definition scale (a : Q) (v : Vector) : Vector := mkVector (a * x v) (a * y v).

(** vector * scalar *)
Definition times (v : Vector) (a : Q) : Vector := mkVector (x v * a) (y v * a).

(** vector / scalar *)
Definition over (v : Vector) (a : Q) : Vector := mkVector (x v / a) (y v / a).

Definition length2 (v : Vector) : Q := x v * x v + y v * y v.

(** lines 209-211 and 222 *)
Definition dt : Q := 1 # 1000.

Definition dx : Q := 1 # 100.

Definition h : Q := dx.

Definition gravity : Vector := mkVector 0 (-10).

(** lines 233-234 *)
Definition rho0 : Q := 1.

Definition k : Q := 1 # 10000000.

(** lines 215-219: the 40 x 40 particles the task starts with *)
Definition initial_particles : list Particle :=
  i ← seq 0 40; j ← seq 0 40;
  [mkParticle
     (add (times (mkVector (inject_Z (Z.of_nat i)) (inject_Z (Z.of_nat j)))
             dx)
        (splat (1 # 10)))
     (splat 0) 0 0].

(** lines 225-227 *)
Definition clear_pressure (ps : list Particle) : list Particle :=
  (fun p => mkParticle (position p) (velocity p) 0 (inv_density p)) <$> ps.

(** body of the inner loop of lines 238-244 *)
Definition rho_add (p : Particle) (rho : Q) (q : Particle) : Q :=
  let dpos := sub (position q) (position p) in
  let dpos2 := length2 dpos in
  if Qlt_le_dec dpos2 (h * h)
  then rho + Qmax 0 ((h * h - dpos2) ^ 3)
  else rho.

(** lines 236-248: one iteration of the loop over [p] *)
Definition density_update (ps : list Particle) (p : Particle) : Particle :=
  let rho := fold_left (rho_add p) ps 0 in
  let rho := rho / rho0 in
  mkParticle (position p) (velocity p) (k * (rho ^ 7 - 1)) (1 / rho).

(** body of the inner loop of lines 254-264 *)
Definition pressure_add (p : Particle) (acc : Vector) (q : Particle) : Vector :=
  let inv_rho := inv_density p in
  let dpos := sub (position q) (position p) in
  let dpos2 := length2 dpos in
  if Qlt_le_dec dpos2 (h * h)
  then
    let inv_rho1 := inv_density q in
    let grad := scale (-6 * (h * h - dpos2)) dpos in
    add acc
      (scale (pressure p * inv_rho * inv_rho
              + pressure q * inv_rho1 * inv_rho1) grad)
  else acc.

(** lines 252-269 *)
Definition integrate (ps : list Particle) (p : Particle) : Particle :=
  let pressure_sum := fold_left (pressure_add p) ps (splat 0) in
  let force := times (add (scale k pressure_sum) gravity) dt in
  let velocity' := add (velocity p) (times force dt) in
  mkParticle (add (position p) (times velocity' dt)) velocity'
    (pressure p) (inv_density p).

(** lines 271-274 *)
Definition clamp_x_low (p : Particle) : Particle :=
  if Qlt_le_dec (x (position p)) 0
  then mkParticle (mkVector 0 (y (position p)))
         (mkVector (Qmax (x (velocity p)) 0) (y (velocity p)))
         (pressure p) (inv_density p)
  else p.

(** lines 275-278 *)
Definition clamp_y_low (p : Particle) : Particle :=
  if Qlt_le_dec (y (position p)) (1 # 10)
  then mkParticle (mkVector (x (position p)) (1 # 10))
         (mkVector (x (velocity p)) (Qmax (y (velocity p)) 0))
         (pressure p) (inv_density p)
  else p.

(** lines 279-282 *)
Definition clamp_x_high (p : Particle) : Particle :=
  if Qlt_le_dec (1 - dx) (x (position p))
  then mkParticle (mkVector (1 - dx) (y (position p)))
         (mkVector (Qmin (x (velocity p)) 0) (y (velocity p)))
         (pressure p) (inv_density p)
  else p.

(** lines 283-286 *)
Definition clamp_y_high (p : Particle) : Particle :=
  if Qlt_le_dec (1 - dx) (y (position p))
  then mkParticle (mkVector (x (position p)) (1 - dx))
         (mkVector (x (velocity p)) (Qmin (y (velocity p)) 0))
         (pressure p) (inv_density p)
  else p.

(** lines 271-286: the four clamps, in this order *)
Definition clamp (p : Particle) : Particle :=
  clamp_y_high (clamp_x_high (clamp_y_low (clamp_x_low p))).

(** lines 251-287: one iteration of the loop over [p] *)
Definition force_update (ps : list Particle) (p : Particle) : Particle :=
  clamp (integrate ps p).

(** [for (auto &p : particles)]: the element at index [i] is updated in
    place, reading the vector as it is at that moment *)
Definition in_place (f : list Particle -> Particle -> Particle)
    (ps : list Particle) (i : nat) : list Particle :=
  match ps !! i with
  | Some p => <[i := f ps p]> ps
  | None => ps
  end.

(** a loop over the vector, in its order *)
Definition pass (f : list Particle -> Particle -> Particle)
    (ps : list Particle) : list Particle :=
  fold_left (in_place f) (seq 0 (length ps)) ps.

(** lines 232-288: the body of the loop over [K] *)
Definition iteration (ps : list Particle) : list Particle :=
  pass force_update (pass density_update ps).

(** [cast<int>()]: the conversion of a [real] to [int] drops the
    fraction *)
Definition cast_int (a : Q) : Z := Z.quot (Qnum a) (Z.pos (Qden a)).

(** line 291: the pixel a particle is drawn at *)
Definition coord (p : Particle) : Z * Z :=
  let v := times (over (position p) dx) 8 in
  (cast_int (x v), cast_int (y v)).

(** line 292: the grey level it is drawn with *)
Definition shade (p : Particle) : Q := (1 / inv_density p) * (1 # 2).

(** lines 225-293: one turn of the [while] loop, the window left out:
    the particles after the ten iterations and what is drawn *)
Definition frame (ps : list Particle)
    : list Particle * list (Z * Z * Q) :=
  let ps := Nat.iter 10 iteration (clear_pressure ps) in
  (ps, (fun p => (coord p, shade p)) <$> ps).

(** the part of the plane the four clamps keep a particle in *)
Definition in_box (p : Particle) : Prop :=
  (0 <= x (position p) /\ x (position p) <= 1 - dx) /\
  ((1 # 10) <= y (position p) /\ y (position p) <= 1 - dx).

(** what the density pass leaves of a particle as it was *)
Definition same_motion (p q : Particle) : Prop :=
  position p = position q /\ velocity p = velocity q.

End Sph2d.

(** * Properties *)

(** ** Proof steps *)

(** Case analysis on a comparison, innermost first. *)
Ltac split_test :=
  match goal with
  | |- context [Qlt_le_dec ?a ?b] =>
      lazymatch a with
      | context [Qlt_le_dec _ _] => fail
      | _ => lazymatch b with
             | context [Qlt_le_dec _ _] => fail
             | _ => destruct (Qlt_le_dec a b) as [?H|?H]
             end
      end
  end.

Ltac split_tests := repeat split_test.

(** One clamp: case analysis on its test. *)
Ltac clamp_step :=
  intros;
  cbv [clamp_y_low clamp_x_low clamp_z_low clamp_x_high clamp_z_high];
  destruct (Qlt_le_dec _ _);
  repeat split; first [reflexivity | exfalso; lra].

(** Expose the lanes of an update under the constants of the
    constructor, without unfolding the rational operations. *)
Ltac lanes :=
  cbv [integrate pressure_of pressure_add fold_left
       set_position set_position_3 set_velocity set_velocity_3
       set_x set_y set_z position velocity position_3 velocity_3 x y z
       Vec.zero Vec.splat Vec.add Vec.sub Vec.scale Vec.times Vec.length2
       Vec.eqv k dpos2_of];
  change (h SPHTestBase_new / 2) with (1 # 80);
  change (h SPHTestBase_new) with (1 # 40);
  change (dt SPHTestBase_new) with (3 # 10000);
  change (gravity SPHTestBase_new) with (mkVector 0 (-100) 0);
  cbv [x y z].

Ltac settle Hx Hy Hz :=
  lanes; split_tests;
  repeat match goal with
         | H : Qlt _ _ |- _ => progress rewrite ?Hx, ?Hy, ?Hz in H
         | H : Qle _ _ |- _ => progress rewrite ?Hx, ?Hy, ?Hz in H
         end;
  rewrite ?Hx, ?Hy, ?Hz;
  first [exfalso; lra | lra | ring | repeat split; first [lra | ring]].

(** ** Rationals and vectors *)




(** ** Passes that update a vector in place *)

Section Passes.
Variable f : list Particle -> Particle -> Particle.

Lemma in_place_length ps i : length (in_place f ps i) = length ps.
Proof.
  unfold in_place. destruct (ps !! i); [apply length_insert | reflexivity].
Qed.

Lemma in_place_other ps i j : i <> j -> in_place f ps i !! j = ps !! j.
Proof.
  intros Hij. unfold in_place.
  destruct (ps !! i); [by apply list_lookup_insert_ne | reflexivity].
Qed.

Lemma in_place_self ps i p :
  ps !! i = Some p -> in_place f ps i !! i = Some (f ps p).
Proof.
  intros Hp. unfold in_place. rewrite Hp.
  apply list_lookup_insert_eq. by eapply lookup_lt_Some.
Qed.

Lemma pass_in_length order ps : length (pass_in f order ps) = length ps.
Proof.
  revert ps. induction order as [|i order IH]; intros ps; [reflexivity|].
  cbn. unfold pass_in in IH. rewrite IH. apply in_place_length.
Qed.

(** indices that a pass does not visit keep their particle *)
Lemma pass_in_other order ps j :
  j ∉ order -> pass_in f order ps !! j = ps !! j.
Proof.
  revert ps. induction order as [|i order IH]; intros ps Hj; [reflexivity|].
  cbn. unfold pass_in in IH. rewrite IH.
  - apply in_place_other. intros ->. apply Hj. left.
  - intros Hin. apply Hj. by right.
Qed.

Lemma pass_in_snoc order i ps :
  pass_in f (order ++ [i]) ps = in_place f (pass_in f order ps) i.
Proof. unfold pass_in. by rewrite fold_left_app. Qed.

(** The pass in the order of the vector: the particle at index [i] is
    updated from the vector in which the particles before [i] are
    already the updated ones and those from [i] on are the old ones. *)
Lemma pass_in_seq_prefix ps n m i :
  (m <= n)%nat -> (i < m)%nat ->
  pass_in f (seq 0 n) ps !! i = pass_in f (seq 0 m) ps !! i.
Proof.
  intros Hmn Him. induction Hmn as [|n Hmn IH]; [reflexivity|].
  rewrite seq_S, pass_in_snoc. cbn.
  rewrite in_place_other by lia. exact IH.
Qed.

Lemma pass_in_seq_suffix ps m j :
  (m <= j)%nat -> pass_in f (seq 0 m) ps !! j = ps !! j.
Proof.
  intros Hmj. apply pass_in_other. rewrite elem_of_seq. lia.
Qed.

Lemma pass_in_seq_store ps n i :
  (i <= n)%nat ->
  pass_in f (seq 0 i) ps = take i (pass_in f (seq 0 n) ps) ++ drop i ps.
Proof.
  intros Hin. apply list_eq. intros j.
  destruct (decide (j < length ps)%nat) as [Hlen|Hlen].
  - destruct (decide (j < i)%nat) as [Hj|Hj].
    + rewrite lookup_app_l
        by (rewrite length_take, pass_in_length; lia).
      rewrite lookup_take_lt by lia.
      symmetry. by apply pass_in_seq_prefix.
    + rewrite pass_in_seq_suffix by lia.
      rewrite lookup_app_r
        by (rewrite length_take, pass_in_length; lia).
      rewrite length_take, pass_in_length, lookup_drop.
      f_equal. lia.
  - rewrite (lookup_ge_None_2 (pass_in f (seq 0 i) ps))
      by (rewrite pass_in_length; lia).
    symmetry. apply lookup_ge_None_2.
    rewrite length_app, length_take, length_drop, pass_in_length. lia.
Qed.

Lemma pass_in_01 a b :
  pass_in f [0; 1]%nat [a; b] = [f [a; b] a; f [f [a; b] a; b] b].
Proof. reflexivity. Qed.

Lemma pass_in_10 a b :
  pass_in f [1; 0]%nat [a; b] = [f [a; f [a; b] b] a; f [a; b] b].
Proof. reflexivity. Qed.

Lemma pass_in_seq_lookup ps i p :
  ps !! i = Some p ->
  pass_in f (seq 0 (length ps)) ps !! i
  = Some (f (take i (pass_in f (seq 0 (length ps)) ps) ++ drop i ps) p).
Proof.
  intros Hp. pose proof (lookup_lt_Some _ _ _ Hp) as Hi.
  rewrite (pass_in_seq_prefix ps (length ps) (S i)) by lia.
  rewrite seq_S, pass_in_snoc. cbn.
  rewrite <- (pass_in_seq_store ps (length ps) i) by lia.
  apply in_place_self. by rewrite pass_in_seq_suffix.
Qed.
End Passes.

(** ** The brute-force variant *)

Section BruteForceFacts.
Variable pi : Q.
Variable cfg : SPHTestBase.

Lemma dpos2_self p : dpos2_of p p == 0.
Proof. unfold dpos2_of, Vec.length2, Vec.sub; cbn. ring. Qed.

(** the velocity gains the total force times [dt] twice *)
Lemma integrate_velocity ps p :
  velocity (integrate cfg ps p)
  =v= velocity p
      +v (k *v pressure_of cfg ps p +v gravity cfg) v* (dt cfg * dt cfg).
Proof. unfold integrate, Vec.eqv; cbn. repeat split; ring. Qed.

Lemma integrate_position ps p :
  position (integrate cfg ps p)
  = position p +v velocity (integrate cfg ps p) v* dt cfg.
Proof. reflexivity. Qed.


Lemma rho_add_self p rho :
  0 < h cfg -> rho_add cfg p rho p == rho + (h cfg * h cfg) ^ 3.
Proof.
  intros Hh. unfold rho_add.
  assert (0 < h cfg * h cfg) as Hhh by (by apply Qmult_lt_0_compat).
  pose proof (dpos2_self p) as H0.
  destruct (Qlt_le_dec _ _) as [_|Hle].
  - assert ((h cfg * h cfg - dpos2_of p p) ^ 3 == (h cfg * h cfg) ^ 3) as ->
      by (rewrite H0; apply Qpower_comp; [ring | reflexivity]).
    rewrite Q.max_r; [reflexivity|].
    apply Qlt_le_weak. by apply Qpower_0_lt.
  - exfalso. rewrite H0 in Hle. exact (Qlt_not_le _ _ Hhh Hle).
Qed.

Lemma rho_add_mono p rho q : rho <= rho_add cfg p rho q.
Proof.
  unfold rho_add. destruct (Qlt_le_dec _ _); [|apply Qle_refl].
  pose proof (Q.le_max_l 0 ((h cfg * h cfg - dpos2_of p q) ^ 3)). lra.
Qed.

Lemma rho_fold_mono p qs rho : rho <= fold_left (rho_add cfg p) qs rho.
Proof.
  revert rho. induction qs as [|q qs IH]; intros rho; [apply Qle_refl|].
  cbn. eapply Qle_trans; [apply rho_add_mono | apply IH].
Qed.


Lemma c_positive : 0 < pi -> 0 < h cfg -> 0 < c pi cfg.
Proof.
  intros Hpi Hh. unfold c.
  apply Qlt_shift_div_l.
  - apply Qmult_lt_0_compat; [lra | by apply Qpower_0_lt].
  - lra.
Qed.

(** the particle's own term is part of every density sum it is in *)
Lemma rho_of_lower_bound ps i p :
  0 < pi -> 0 < h cfg -> ps !! i = Some p ->
  c pi cfg * (h cfg * h cfg) ^ 3 <= rho_of pi cfg ps p.
Proof.
  intros Hpi Hh Hp. unfold rho_of.
  rewrite <- (take_drop_middle _ _ _ Hp), fold_left_app. cbn.
  pose proof (c_positive Hpi Hh) as Hc.
  pose proof (rho_fold_mono p (take i ps) 0) as H1.
  pose proof (rho_add_self p (fold_left (rho_add cfg p) (take i ps) 0) Hh)
    as H2.
  pose proof (rho_fold_mono p (drop (S i) ps)
                (rho_add cfg p (fold_left (rho_add cfg p) (take i ps) 0) p))
    as H3.
  rewrite (Qmult_comm _ (c pi cfg)).
  apply Qmult_le_l; [exact Hc | lra].
Qed.

End BruteForceFacts.

Lemma from_option_reflect {A} (P : A -> Prop) (b : A -> bool) (o : option A) :
  (forall a, b a = true -> P a) ->
  from_option b false o = true -> from_option P False o.
Proof. intros Hb. destruct o as [a|]; cbn; [apply Hb | discriminate]. Qed.

(** C1, evaluated on the code: a single particle at rest in the middle of
    the domain feels no pressure force, and after one substep its
    vertical velocity is gravity times [dt] times [dt] again: the force
    is multiplied by [dt] twice, so the velocity is not gravity times
    [1 * dt]. *)
Theorem free_fall_one_substep :
  let cfg := SPHTestBase_new in
  let ps := BruteForce_substep pi_f cfg [p_mid] in
  length ps = 1%nat /\
  from_option
    (fun p =>
       y (velocity p) == y (gravity cfg) * (1 * dt cfg) * dt cfg /\
       ~ y (velocity p) == y (gravity cfg) * (1 * dt cfg))
    False (ps !! 0%nat).
Proof.
  split; [vm_compute; reflexivity|].
  apply (from_option_reflect _
           (fun p =>
              Qeq_bool (y (velocity p))
                (y (gravity SPHTestBase_new) * (1 * dt SPHTestBase_new)
                 * dt SPHTestBase_new)
              && negb (Qeq_bool (y (velocity p))
                         (y (gravity SPHTestBase_new)
                          * (1 * dt SPHTestBase_new))))).
  - intros p [Heq Hne]%andb_true_iff. split.
    + by apply Qeq_bool_eq.
    + apply Qeq_bool_neq. by apply negb_true_iff.
  - vm_compute. reflexivity.
Qed.

(** *** The boundary clamps *)

Section Clamp.
Variable cfg : SPHTestBase.

Lemma clamp_y_low_id p :
  h cfg / 2 <= y (position p) -> clamp_y_low cfg p = p.
Proof. clamp_step. Qed.

Lemma clamp_x_low_id p : 0 <= x (position p) -> clamp_x_low p = p.
Proof. clamp_step. Qed.

Lemma clamp_z_low_id p : 0 <= z (position p) -> clamp_z_low p = p.
Proof. clamp_step. Qed.

Lemma clamp_x_high_id p : x (position p) <= 1 -> clamp_x_high p = p.
Proof. clamp_step. Qed.

Lemma clamp_z_high_id p : z (position p) <= 1 -> clamp_z_high p = p.
Proof. clamp_step. Qed.

Lemma clamp_y_low_hit p :
  y (position p) < h cfg / 2 ->
  clamp_y_low cfg p
  = set_velocity (set_position p (set_y (position p) (h cfg / 2)))
      (set_y (velocity p) (Qmax (y (velocity p)) 0)).
Proof. clamp_step. Qed.

Lemma clamp_x_low_hit p :
  x (position p) < 0 ->
  clamp_x_low p
  = set_velocity (set_position p (set_x (position p) 0))
      (set_x (velocity p) (Qmax (x (velocity p)) 0)).
Proof. clamp_step. Qed.

Lemma clamp_z_low_hit p :
  z (position p) < 0 ->
  clamp_z_low p
  = set_velocity (set_position p (set_z (position p) 0))
      (set_z (velocity p) (Qmax (z (velocity p)) 0)).
Proof. clamp_step. Qed.

Lemma clamp_x_high_hit p :
  1 < x (position p) ->
  clamp_x_high p
  = set_velocity (set_position p (set_x (position p) 1))
      (set_x (velocity p) (Qmin (x (velocity p)) 0)).
Proof. clamp_step. Qed.

Lemma clamp_z_high_hit p :
  1 < z (position p) ->
  clamp_z_high p
  = set_velocity (set_position p (set_z (position p) 1))
      (set_z (velocity p) (Qmin (z (velocity p)) 0)).
Proof. clamp_step. Qed.

(** a clamp along one axis leaves the other two axes alone *)
Lemma clamp_y_low_others p :
  x (position (clamp_y_low cfg p)) = x (position p) /\
  z (position (clamp_y_low cfg p)) = z (position p) /\
  x (velocity (clamp_y_low cfg p)) = x (velocity p) /\
  z (velocity (clamp_y_low cfg p)) = z (velocity p).
Proof. clamp_step. Qed.

Lemma clamp_x_low_others p :
  y (position (clamp_x_low p)) = y (position p) /\
  z (position (clamp_x_low p)) = z (position p) /\
  y (velocity (clamp_x_low p)) = y (velocity p) /\
  z (velocity (clamp_x_low p)) = z (velocity p).
Proof. clamp_step. Qed.

Lemma clamp_x_high_others p :
  y (position (clamp_x_high p)) = y (position p) /\
  z (position (clamp_x_high p)) = z (position p) /\
  y (velocity (clamp_x_high p)) = y (velocity p) /\
  z (velocity (clamp_x_high p)) = z (velocity p).
Proof. clamp_step. Qed.

Lemma clamp_z_low_others p :
  x (position (clamp_z_low p)) = x (position p) /\
  y (position (clamp_z_low p)) = y (position p) /\
  x (velocity (clamp_z_low p)) = x (velocity p) /\
  y (velocity (clamp_z_low p)) = y (velocity p).
Proof. clamp_step. Qed.

Lemma clamp_z_high_others p :
  x (position (clamp_z_high p)) = x (position p) /\
  y (position (clamp_z_high p)) = y (position p) /\
  x (velocity (clamp_z_high p)) = x (velocity p) /\
  y (velocity (clamp_z_high p)) = y (velocity p).
Proof. clamp_step. Qed.

(** inside the box nothing is clamped *)
Lemma clamp_inside p :
  h cfg / 2 <= y (position p) ->
  0 <= x (position p) -> 0 <= z (position p) ->
  x (position p) <= 1 -> z (position p) <= 1 ->
  clamp cfg p = p.
Proof.
  intros Hy Hx Hz Hx1 Hz1. unfold clamp.
  rewrite clamp_y_low_id by exact Hy.
  rewrite clamp_x_low_id by exact Hx.
  rewrite clamp_z_low_id by exact Hz.
  rewrite clamp_x_high_id by exact Hx1.
  by rewrite clamp_z_high_id.
Qed.

(** below the floor, between the walls: only the floor clamp acts *)
Lemma clamp_floor p :
  y (position p) < h cfg / 2 ->
  0 <= x (position p) -> 0 <= z (position p) ->
  x (position p) <= 1 -> z (position p) <= 1 ->
  clamp cfg p
  = set_velocity (set_position p (set_y (position p) (h cfg / 2)))
      (set_y (velocity p) (Qmax (y (velocity p)) 0)).
Proof.
  intros Hy Hx Hz Hx1 Hz1. unfold clamp.
  rewrite clamp_y_low_hit by exact Hy.
  rewrite clamp_x_low_id by exact Hx.
  rewrite clamp_z_low_id by exact Hz.
  rewrite clamp_x_high_id by exact Hx1.
  by rewrite clamp_z_high_id.
Qed.

(** the vertical lanes after all five clamps *)
Lemma clamp_vertical p :
  y (position (clamp cfg p)) = y (position (clamp_y_low cfg p)) /\
  y (velocity (clamp cfg p)) = y (velocity (clamp_y_low cfg p)).
Proof.
  unfold clamp.
  destruct (clamp_z_high_others
              (clamp_x_high (clamp_z_low (clamp_x_low (clamp_y_low cfg p)))))
    as (_ & -> & _ & ->).
  destruct (clamp_x_high_others
              (clamp_z_low (clamp_x_low (clamp_y_low cfg p))))
    as (-> & _ & -> & _).
  destruct (clamp_z_low_others (clamp_x_low (clamp_y_low cfg p)))
    as (_ & -> & _ & ->).
  destruct (clamp_x_low_others (clamp_y_low cfg p)) as (-> & _ & -> & _).
  split; reflexivity.
Qed.

Lemma clamp_x_low_x p :
  x (position (clamp_x_low p))
  = (if Qlt_le_dec (x (position p)) 0 then 0 else x (position p)) /\
  x (velocity (clamp_x_low p))
  = (if Qlt_le_dec (x (position p)) 0
     then Qmax (x (velocity p)) 0 else x (velocity p)).
Proof. clamp_step. Qed.

Lemma clamp_x_high_x p :
  x (position (clamp_x_high p))
  = (if Qlt_le_dec 1 (x (position p)) then 1 else x (position p)) /\
  x (velocity (clamp_x_high p))
  = (if Qlt_le_dec 1 (x (position p))
     then Qmin (x (velocity p)) 0 else x (velocity p)).
Proof. clamp_step. Qed.

Lemma clamp_z_low_z p :
  z (position (clamp_z_low p))
  = (if Qlt_le_dec (z (position p)) 0 then 0 else z (position p)) /\
  z (velocity (clamp_z_low p))
  = (if Qlt_le_dec (z (position p)) 0
     then Qmax (z (velocity p)) 0 else z (velocity p)).
Proof. clamp_step. Qed.

Lemma clamp_z_high_z p :
  z (position (clamp_z_high p))
  = (if Qlt_le_dec 1 (z (position p)) then 1 else z (position p)) /\
  z (velocity (clamp_z_high p))
  = (if Qlt_le_dec 1 (z (position p))
     then Qmin (z (velocity p)) 0 else z (velocity p)).
Proof. clamp_step. Qed.

(** the lanes along x after all five clamps *)
Lemma clamp_along_x p :
  let x1 := if Qlt_le_dec (x (position p)) 0 then 0 else x (position p) in
  let vx1 := if Qlt_le_dec (x (position p)) 0
             then Qmax (x (velocity p)) 0 else x (velocity p) in
  x (position (clamp cfg p)) = (if Qlt_le_dec 1 x1 then 1 else x1) /\
  x (velocity (clamp cfg p)) = (if Qlt_le_dec 1 x1 then Qmin vx1 0 else vx1).
Proof.
  cbv zeta. unfold clamp.
  destruct (clamp_z_high_others
              (clamp_x_high (clamp_z_low (clamp_x_low (clamp_y_low cfg p)))))
    as (-> & _ & -> & _).
  destruct (clamp_x_high_x (clamp_z_low (clamp_x_low (clamp_y_low cfg p))))
    as (-> & ->).
  destruct (clamp_z_low_others (clamp_x_low (clamp_y_low cfg p)))
    as (-> & _ & -> & _).
  destruct (clamp_x_low_x (clamp_y_low cfg p)) as (-> & ->).
  destruct (clamp_y_low_others p) as (-> & _ & -> & _).
  split; reflexivity.
Qed.

(** the lanes along z after all five clamps *)
Lemma clamp_along_z p :
  let z1 := if Qlt_le_dec (z (position p)) 0 then 0 else z (position p) in
  let vz1 := if Qlt_le_dec (z (position p)) 0
             then Qmax (z (velocity p)) 0 else z (velocity p) in
  z (position (clamp cfg p)) = (if Qlt_le_dec 1 z1 then 1 else z1) /\
  z (velocity (clamp cfg p)) = (if Qlt_le_dec 1 z1 then Qmin vz1 0 else vz1).
Proof.
  cbv zeta. unfold clamp.
  destruct (clamp_z_high_z
              (clamp_x_high (clamp_z_low (clamp_x_low (clamp_y_low cfg p)))))
    as (-> & ->).
  destruct (clamp_x_high_others
              (clamp_z_low (clamp_x_low (clamp_y_low cfg p))))
    as (_ & -> & _ & ->).
  destruct (clamp_z_low_z (clamp_x_low (clamp_y_low cfg p))) as (-> & ->).
  destruct (clamp_x_low_others (clamp_y_low cfg p)) as (_ & -> & _ & ->).
  destruct (clamp_y_low_others p) as (_ & -> & _ & ->).
  split; reflexivity.
Qed.
End Clamp.

(** *** Two particles, one above the other *)

Lemma Qpower7_gt_1 (r : Q) : 1 < r -> 1 < r ^ 7.
Proof.
  intros Hr.
  assert (r ^ 7 == r * r * r * r * r * r * r) as -> by ring.
  assert (1 < r * r) as H2 by nra.
  assert (1 < r * r * r) as H3 by nra.
  assert (1 < r * r * r * r) as H4 by nra.
  assert (1 < r * r * r * r * r) as H5 by nra.
  assert (1 < r * r * r * r * r * r) as H6 by nra.
  nra.
Qed.

(** denser than [rho0], a particle has a positive pressure term *)
Lemma coefficient_positive (rho : Q) :
  1 < rho -> 0 < k * ((rho / rho0) ^ 7 - 1) * (1 / rho) * (1 / rho).
Proof.
  intros Hr.
  assert (rho / rho0 == rho) as -> by (unfold rho0; field).
  pose proof (Qpower7_gt_1 rho Hr) as H7.
  assert (0 < 1 / rho) as Hi.
  { unfold Qdiv. rewrite Qmult_1_l. apply Qinv_lt_0_compat. lra. }
  assert (0 < k * (rho ^ 7 - 1)) as Hq.
  { apply Qmult_lt_0_compat; [reflexivity | lra]. }
  apply Qmult_lt_0_compat; [apply Qmult_lt_0_compat|]; assumption.
Qed.

(** The lower particle, updated while the upper one still has its
    pressure: it is pushed into the floor and clamped back. *)
Lemma lower_update (b : Particle) iA qA :
  position b =v= mkVector (1 # 2) (9 # 400) (1 # 2) ->
  0 < qA * iA * iA ->
  0 <= velocity_3 b * position_3 b * position_3 b ->
  let a := mkParticle (mkVector (1 # 2) (1 # 80) (1 # 2)) iA Vec.zero qA in
  position (force_update SPHTestBase_new [a; b] a)
  =v= mkVector (1 # 2) (1 # 80) (1 # 2) /\
  position_3 (force_update SPHTestBase_new [a; b] a) = 0 /\
  velocity_3 (force_update SPHTestBase_new [a; b] a) = 0.
Proof.
  destruct b as [[xb yb zb] ib vb qb]. unfold Vec.eqv.
  cbn [position position_3 velocity_3 x y z].
  intros (Hx & Hy & Hz) HA Hb. unfold force_update.
  rewrite clamp_floor.
  - split; [|split; reflexivity]. settle Hx Hy Hz.
  - settle Hx Hy Hz.
  - settle Hx Hy Hz.
  - settle Hx Hy Hz.
  - settle Hx Hy Hz.
  - settle Hx Hy Hz.
Qed.

(** The upper particle: its vertical velocity after the update, from the
    pressure terms of the two particles as it reads them. *)
Lemma upper_update (a : Particle) iB qB :
  position a =v= mkVector (1 # 2) (1 # 80) (1 # 2) ->
  0 <= velocity_3 a * position_3 a * position_3 a ->
  0 < qB * iB * iB ->
  let b := mkParticle (mkVector (1 # 2) (9 # 400) (1 # 2)) iB Vec.zero qB in
  y (velocity (force_update SPHTestBase_new [a; b] b))
  == ((1 # 100000000)
      * ((qB * iB * iB + velocity_3 a * position_3 a * position_3 a)
         * (-6 * ((1 # 1600) - (1 # 10000)) * ((1 # 80) - (9 # 400))))
      + -100) * (3 # 10000) * (3 # 10000).
Proof.
  destruct a as [[xa ya za] ia va qa]. unfold Vec.eqv.
  cbn [position position_3 velocity_3 x y z].
  intros (Hx & Hy & Hz) Ha HB. unfold force_update.
  rewrite clamp_inside.
  - settle Hx Hy Hz.
  - settle Hx Hy Hz.
  - settle Hx Hy Hz.
  - settle Hx Hy Hz.
  - settle Hx Hy Hz.
  - settle Hx Hy Hz.
Qed.

Lemma default_density_above_rho0 ps i p :
  ps !! i = Some p -> 1 < rho_of pi_f SPHTestBase_new ps p.
Proof.
  intros Hp.
  eapply Qlt_le_trans; [|apply (rho_of_lower_bound pi_f SPHTestBase_new ps i)].
  - vm_compute. reflexivity.
  - reflexivity.
  - reflexivity.
  - exact Hp.
Qed.

(** C2, counterexample: two particles closer than [h], one at rest on
    the floor and one at rest a hundredth above it.  After the density
    pass, updating index 0 before index 1 and index 1 before index 0
    leave particle 1 with different vertical velocities: updated second,
    it reads the pressure of particle 0 as already reset to zero. *)
Lemma force_pass_order_matters :
  let cfg := SPHTestBase_new in
  let ps := density_pass pi_f cfg [p_low; p_high] in
  from_option
    (fun a =>
       from_option (fun b => ~ y (velocity a) == y (velocity b)) False
         (force_pass_in cfg [1; 0]%nat ps !! 1%nat))
    False (force_pass_in cfg [0; 1]%nat ps !! 1%nat).
Proof.
  cbv zeta. unfold density_pass, force_pass_in.
  change (seq 0 (length [p_low; p_high])) with [0; 1]%nat.
  rewrite (pass_in_01 (density_update pi_f SPHTestBase_new)).
  rewrite (pass_in_01 (force_update SPHTestBase_new)).
  rewrite (pass_in_10 (force_update SPHTestBase_new)).
  cbn [lookup list_lookup from_option].
  set (A := density_update pi_f SPHTestBase_new [p_low; p_high] p_low).
  set (B := density_update pi_f SPHTestBase_new [A; p_high] p_high).
  pose proof (default_density_above_rho0 [p_low; p_high] 0 p_low eq_refl)
    as HrA.
  pose proof (default_density_above_rho0 [A; p_high] 1 p_high eq_refl)
    as HrB.
  apply coefficient_positive in HrA, HrB.
  set (rhoA := rho_of pi_f SPHTestBase_new [p_low; p_high] p_low) in *.
  set (rhoB := rho_of pi_f SPHTestBase_new [A; p_high] p_high) in *.
  set (qA := k * ((rhoA / rho0) ^ 7 - 1)) in *.
  set (qB := k * ((rhoB / rho0) ^ 7 - 1)) in *.
  change A with (mkParticle (mkVector (1 # 2) (1 # 80) (1 # 2)) (1 / rhoA)
                   Vec.zero qA) in *.
  change B with (mkParticle (mkVector (1 # 2) (9 # 400) (1 # 2)) (1 / rhoB)
                   Vec.zero qB).
  clear A B. clearbody qA qB rhoA rhoB.
  set (a := mkParticle (mkVector (1 # 2) (1 # 80) (1 # 2)) (1 / rhoA)
              Vec.zero qA).
  set (b := mkParticle (mkVector (1 # 2) (9 # 400) (1 # 2)) (1 / rhoB)
              Vec.zero qB).
  assert (position b =v= mkVector (1 # 2) (9 # 400) (1 # 2)) as Hpb
    by (repeat split; reflexivity).
  assert (position a =v= mkVector (1 # 2) (1 # 80) (1 # 2)) as Hpa
    by (repeat split; reflexivity).
  assert (0 <= velocity_3 b * position_3 b * position_3 b) as Hcb
    by (apply Qlt_le_weak; exact HrB).
  assert (0 <= velocity_3 a * position_3 a * position_3 a) as Hca
    by (apply Qlt_le_weak; exact HrA).
  destruct (lower_update b (1 / rhoA) qA Hpb HrA Hcb) as (Hp' & Hi' & Hq').
  fold a in Hp', Hi', Hq'.
  set (a' := force_update SPHTestBase_new [a; b] a) in *.
  assert (0 <= velocity_3 a' * position_3 a' * position_3 a') as Hca'
    by (rewrite Hi', Hq'; lra).
  pose proof (upper_update a' (1 / rhoB) qB Hp' Hca' HrB) as Hfirst.
  pose proof (upper_update a (1 / rhoB) qB Hpa Hca HrB) as Hsecond.
  cbv zeta in Hfirst, Hsecond. fold b in Hfirst, Hsecond.
  rewrite Hfirst, Hsecond, Hi', Hq'.
  cbn [a velocity_3 position_3].
  intros Heq. lra.
Qed.

(** C2, amended: the force pass runs after the whole density pass and
    updates the vector in place, in the order of the vector.  The
    particle at index [i] is updated from the vector in which the
    particles before [i] are the ones this force pass has already
    written and the particles from [i] on are those the density pass
    left. *)
Theorem force_pass_reads_current_vector pi cfg (ps : list Particle) i p :
  density_pass pi cfg ps !! i = Some p ->
  BruteForce_substep pi cfg ps !! i
  = Some (force_update cfg
            (take i (BruteForce_substep pi cfg ps)
             ++ drop i (density_pass pi cfg ps)) p).
Proof.
  intros Hp. unfold BruteForce_substep, force_pass, force_pass_in.
  by apply pass_in_seq_lookup.
Qed.

Lemma force_pass_reads_current_vector_witness :
  let cfg := SPHTestBase_new in
  let ps := [p_low; p_high] in
  let p := density_update pi_f cfg ps p_high in
  density_pass pi_f cfg ps !! 1%nat = Some p /\
  BruteForce_substep pi_f cfg ps !! 1%nat
  = Some (force_update cfg
            (take 1 (BruteForce_substep pi_f cfg ps)
             ++ drop 1 (density_pass pi_f cfg ps)) p).
Proof.
  cbv zeta. split.
  - vm_compute. reflexivity.
  - apply (force_pass_reads_current_vector pi_f SPHTestBase_new
             [p_low; p_high] 1).
    vm_compute. reflexivity.
Defined.

(** *** An isolated particle *)

Section Isolated.
Variable pi : Q.
Variable cfg : SPHTestBase.



(** the gradient at distance zero is the zero vector *)
Lemma pressure_add_self p u : pressure_add cfg p u p =v= u.
Proof.
  unfold pressure_add.
  destruct (Qlt_le_dec _ _); unfold Vec.eqv; cbn; repeat split; ring.
Qed.



End Isolated.






(** C6, counterexample: a particle above the upper bound of the domain
    on the vertical axis keeps its position and its upward velocity. *)
Lemma no_clamp_above :
  y (domain_size SPHTestBase_new) < y (position p_above) /\
  clamp SPHTestBase_new p_above = p_above /\
  ~ y (position (clamp SPHTestBase_new p_above))
    == y (domain_size SPHTestBase_new) /\
  ~ y (velocity (clamp SPHTestBase_new p_above)) <= 0.
Proof.
  assert (clamp SPHTestBase_new p_above = p_above) as Hsame
    by (vm_compute; reflexivity).
  rewrite Hsame. repeat split; intros H; vm_compute in H; congruence.
Qed.

(** C6, amended: the floor clamp at [h/2] on the vertical axis, the
    clamps at 0 and at 1 on the two horizontal axes; a clamped position
    is exactly the bound and the velocity along that axis is floored
    (lower bound) or ceilinged (upper bound) at 0.  The vertical axis
    has no upper clamp: at or above the floor plane a particle keeps its
    height and its vertical velocity. *)
Theorem clamp_bounds cfg p :
  let p' := clamp cfg p in
  (y (position p) < h cfg / 2 ->
   y (position p') = h cfg / 2 /\
   y (velocity p') = Qmax (y (velocity p)) 0) /\
  (h cfg / 2 <= y (position p) ->
   y (position p') = y (position p) /\ y (velocity p') = y (velocity p)) /\
  (x (position p) < 0 ->
   x (position p') = 0 /\ x (velocity p') = Qmax (x (velocity p)) 0) /\
  (1 < x (position p) ->
   x (position p') = 1 /\ x (velocity p') = Qmin (x (velocity p)) 0) /\
  (z (position p) < 0 ->
   z (position p') = 0 /\ z (velocity p') = Qmax (z (velocity p)) 0) /\
  (1 < z (position p) ->
   z (position p') = 1 /\ z (velocity p') = Qmin (z (velocity p)) 0).
Proof.
  cbv zeta.
  destruct (clamp_vertical cfg p) as (-> & ->).
  destruct (clamp_along_x cfg p) as (-> & ->).
  destruct (clamp_along_z cfg p) as (-> & ->).
  cbv zeta. unfold clamp_y_low.
  repeat split.
  all: repeat (split_test; try (exfalso; lra)).
  all: reflexivity.
Qed.

Lemma clamp_bounds_witness :
  y (position (clamp SPHTestBase_new p_below)) = h SPHTestBase_new / 2 /\
  y (velocity (clamp SPHTestBase_new p_below))
  = Qmax (y (velocity p_below)) 0.
Proof.
  apply (clamp_bounds SPHTestBase_new p_below). reflexivity.
Defined.

(** ** The driver *)

Lemma Qlt_ceiling (i : Z) (r : Q) : inject_Z i < r <-> (i < Qceiling r)%Z.
Proof.
  split; intros Hi.
  - rewrite Zlt_Qlt. eapply Qlt_le_trans; [exact Hi | apply Qle_ceiling].
  - eapply Qle_lt_trans; [|apply Qceiling_lt].
    rewrite <- Zle_Qle. lia.
Qed.

Section AdvanceFacts.
Context {V : Type} `{SPHTest V}.
Variable cfg : SPHTestBase.

Lemma advance_loop_substeps fuel i s :
  (Z.to_nat (Qceiling (frame_dt cfg / dt cfg) - i) < fuel)%nat ->
  advance_loop cfg fuel i s
  = match substeps cfg (Z.to_nat (Qceiling (frame_dt cfg / dt cfg) - i)) s
    with
    | Some s' => Returns s'
    | None => Aborts
    end.
Proof.
  revert i s. induction fuel as [|fuel IH]; intros i s Hfuel; [lia|].
  cbn [advance_loop].
  destruct (Qlt_le_dec (inject_Z i) (frame_dt cfg / dt cfg)) as [Hlt|Hge].
  - apply Qlt_ceiling in Hlt.
    replace (Z.to_nat (Qceiling (frame_dt cfg / dt cfg) - i))
      with (S (Z.to_nat (Qceiling (frame_dt cfg / dt cfg) - (i + 1))))
      in * by lia.
    cbn [substeps]. destruct (substep cfg s) as [s1|]; [|reflexivity].
    apply IH. lia.
  - assert (~ (i < Qceiling (frame_dt cfg / dt cfg))%Z) as Hn.
    { intros Hi. apply Qlt_ceiling in Hi. exact (Qlt_not_le _ _ Hi Hge). }
    replace (Z.to_nat (Qceiling (frame_dt cfg / dt cfg) - i)) with 0%nat
      by lia.
    reflexivity.
Qed.

Lemma advance_substeps fuel s :
  (substeps_per_frame cfg < fuel)%nat ->
  advance cfg fuel s
  = match substeps cfg (substeps_per_frame cfg) s with
    | Some s' => Returns (finish_frame cfg s')
    | None => Aborts
    end.
Proof.
  intros Hfuel. unfold advance, substeps_per_frame in *.
  rewrite advance_loop_substeps by (rewrite Z.sub_0_r; exact Hfuel).
  rewrite Z.sub_0_r.
  destruct (substeps cfg _ s); reflexivity.
Qed.
End AdvanceFacts.

(** C4, counterexample: with the constants of the constructor, one call
    of [advance] calls [substep] 334 times, not 333. *)
Lemma advance_runs_334_substeps :
  advance (H := Counting) SPHTestBase_new 400 (mkRun 0 0%nat [])
  = Returns (mkRun 1 334%nat []).
Proof. vm_compute. reflexivity. Qed.

(** C4, amended: one call of [advance] calls [substep] [n] times, where
    [n] is [frame_dt / dt] rounded up to the next integer (the least
    integer that is not below the quotient: 334 for the constants of the
    constructor), then adds one to the frame counter and calls [output].
    It aborts when a substep aborts. *)
Theorem advance_rounds_up {V} `{SPHTest V} cfg fuel (s : Run V) :
  0 < dt cfg ->
  frame_dt cfg / dt cfg <= 2147483647 ->
  (substeps_per_frame cfg < fuel)%nat ->
  let n := substeps_per_frame cfg in
  frame_dt cfg / dt cfg <= inject_Z (Z.of_nat n) /\
  (forall m : nat, frame_dt cfg / dt cfg <= inject_Z (Z.of_nat m) ->
                   (n <= m)%nat) /\
  advance cfg fuel s
  = match substeps cfg n s with
    | Some s' =>
        Returns
          (output cfg (current_frame s' + 1)%Z
             (mkRun (current_frame s' + 1)%Z (body s') (written s')))
    | None => Aborts
    end.
Proof.
  intros Hdt Hmax Hfuel n. subst n. repeat split.
  - unfold substeps_per_frame.
    eapply Qle_trans; [apply Qle_ceiling|].
    rewrite <- Zle_Qle. lia.
  - intros m Hm. unfold substeps_per_frame.
    destruct (decide (Qceiling (frame_dt cfg / dt cfg) <= Z.of_nat m)%Z)
      as [Hle|Hgt]; [lia|].
    exfalso. assert (Z.of_nat m < Qceiling (frame_dt cfg / dt cfg))%Z as Hlt
      by lia.
    apply Qlt_ceiling in Hlt. exact (Qlt_not_le _ _ Hlt Hm).
  - by apply advance_substeps.
Qed.

Lemma advance_rounds_up_witness :
  frame_dt SPHTestBase_new / dt SPHTestBase_new <= inject_Z (Z.of_nat 334) /\
  (forall m : nat,
     frame_dt SPHTestBase_new / dt SPHTestBase_new <= inject_Z (Z.of_nat m) ->
     (334 <= m)%nat) /\
  advance (H := Counting) SPHTestBase_new 400 (mkRun 0 0%nat [])
  = match substeps (H := Counting) SPHTestBase_new 334
            (mkRun 0 0%nat []) with
    | Some s' =>
        Returns
          (output (SPHTest := Counting) SPHTestBase_new
             (current_frame s' + 1)%Z
             (mkRun (current_frame s' + 1)%Z (body s') (written s')))
    | None => Aborts
    end.
Proof.
  apply (advance_rounds_up (H := Counting) SPHTestBase_new 400
           (mkRun 0 0%nat [])).
  - reflexivity.
  - vm_compute. discriminate.
  - vm_compute. lia.
Defined.

(** *** Calls of the output hook *)

Lemma scene_fold {A} (f : Particle -> A) (ps : list Particle) (acc : list A) :
  fold_left (fun scene p => scene ++ [f p]) ps acc = acc ++ map f ps.
Proof.
  revert acc. induction ps as [|p ps IH]; intros acc; cbn.
  - by rewrite app_nil_r.
  - rewrite IH, <- app_assoc. reflexivity.
Qed.

(** the brute-force substep writes no file and keeps the frame counter *)
Lemma BruteForce_loop_quiet pi cfg fuel i s s' :
  advance_loop (H := BruteForce pi) cfg fuel i s = Returns s' ->
  written s' = written s /\ current_frame s' = current_frame s.
Proof.
  revert i s. induction fuel as [|fuel IH]; intros i s Hrun; [discriminate|].
  cbn [advance_loop] in Hrun.
  destruct (Qlt_le_dec _ _).
  - cbn [substep BruteForce] in Hrun. apply IH in Hrun. exact Hrun.
  - injection Hrun as <-. split; reflexivity.
Qed.

Lemma Pangu_substep_writes cfg size s s' :
  Pangu_substep cfg size s = Some s' ->
  current_frame s' = (current_frame s + 1)%Z /\
  written s'
  = written s
    ++ [(current_frame s',
         map (fun p => (position p v* 3, 3 # 10))
           (gather_particles (body s')))].
Proof.
  unfold Pangu_substep. cbn [body current_frame written].
  destruct (grid_advance cfg size (body s)) as [grid|]; [|discriminate].
  intros [= <-]. unfold Pangu_output, write_to_binary_file, get_filename.
  cbn [body current_frame written]. rewrite scene_fold. split; reflexivity.
Qed.

Lemma Pangu_substeps_write cfg size n s s' :
  substeps (H := Pangu size) cfg n s = Some s' ->
  current_frame s' = (current_frame s + Z.of_nat n)%Z /\
  length (written s') = (length (written s) + n)%nat.
Proof.
  revert s. induction n as [|n IH]; intros s Hrun.
  - injection Hrun as <-. split; [lia | lia].
  - cbn [substeps substep Pangu] in Hrun.
    destruct (Pangu_substep cfg size s) as [s1|] eqn:Hs1; [|discriminate].
    apply Pangu_substep_writes in Hs1 as [Hf Hw].
    apply IH in Hrun as [Hf' Hw'].
    rewrite Hf', Hw', Hf, Hw, length_app. cbn. lia.
Qed.

(** C5, counterexample: on a grid of one block with one particle, one
    call of [advance] of the block-grid variant writes 335 files: one in
    each of the 334 substeps and one at the end of the frame. *)
Lemma Pangu_advance_writes_335_files :
  match advance (H := Pangu (mkVector 2%Z 2%Z 2%Z)) SPHTestBase_new 400
          (mkRun 0 one_block []) with
  | Returns s => length (written s) = 335%nat /\ current_frame s = 335%Z
  | _ => False
  end.
Proof. vm_compute. split; reflexivity. Qed.

(** C5, amended: the brute-force variant calls the output hook once per
    call of [advance], after the substeps, with every particle's
    position times 10 and the radius [10 h].  In the block-grid variant
    every substep itself adds one to the frame counter and calls the
    hook, with every particle's position times 3 and the radius 3/10, so
    that [n] substeps call it [n] times, before the call at the end of
    [advance]. *)
Theorem output_calls :
  (forall pi cfg fuel (s s' : Run (list Particle)),
     advance (H := BruteForce pi) cfg fuel s = Returns s' ->
     current_frame s' = (current_frame s + 1)%Z /\
     written s'
     = written s
       ++ [(current_frame s',
            map (fun p => (position p v* 10, h cfg * 10)) (body s'))]) /\
  (forall cfg size (s s' : Run (gmap (VectorND Z) Block)),
     substep (SPHTest := Pangu size) cfg s = Some s' ->
     current_frame s' = (current_frame s + 1)%Z /\
     written s'
     = written s
       ++ [(current_frame s',
            map (fun p => (position p v* 3, 3 # 10))
              (gather_particles (body s')))]) /\
  (forall cfg size n (s s' : Run (gmap (VectorND Z) Block)),
     substeps (H := Pangu size) cfg n s = Some s' ->
     current_frame s' = (current_frame s + Z.of_nat n)%Z /\
     length (written s') = (length (written s) + n)%nat).
Proof.
  split; [|split].
  - intros pi cfg fuel s s' Hrun. unfold advance in Hrun.
    destruct (advance_loop cfg fuel 0 s) as [s1| |] eqn:Hloop;
      try discriminate.
    apply BruteForce_loop_quiet in Hloop as [Hw Hf].
    injection Hrun as <-.
    cbn [output BruteForce]. unfold BruteForce_output, write_to_binary_file,
      get_filename.
    cbn [body current_frame written]. rewrite scene_fold, Hw, Hf.
    split; reflexivity.
  - intros cfg size s s' Hs. change (Pangu_substep cfg size s = Some s') in Hs.
    exact (Pangu_substep_writes cfg size s s' Hs).
  - intros cfg size n s s'. apply Pangu_substeps_write.
Qed.

Lemma output_calls_witness :
  match substep (SPHTest := Pangu (mkVector 2%Z 2%Z 2%Z)) SPHTestBase_new
          (mkRun 0 one_block []) with
  | Some s' =>
      current_frame s' = 1%Z /\
      written s'
      = [(current_frame s',
          map (fun p => (position p v* 3, 3 # 10))
            (gather_particles (body s')))]
  | None => False
  end.
Proof.
  destruct (substep (SPHTest := Pangu (mkVector 2%Z 2%Z 2%Z)) SPHTestBase_new
              (mkRun 0 one_block [])) as [s'|] eqn:Hs.
  - exact (proj1 (proj2 output_calls) SPHTestBase_new (mkVector 2%Z 2%Z 2%Z)
             (mkRun 0 one_block []) s' Hs).
  - vm_compute in Hs. discriminate.
Defined.

(** ** The block grid: migration *)

Section Migration.
Variable cfg : SPHTestBase.
Variable size : Vector3i.


Lemma gather_particles_of range b ab :
  gather cfg range b ab
  = mkBlock (base_coord b) (nodes b)
      (particles b ++ List.filter (in_particle_range cfg range)
                        (particles ab)).
Proof.
  unfold gather. generalize (particles ab) as ps. intros ps. revert b.
  induction ps as [|p ps IH]; intros b; cbn [fold_left List.filter].
  - rewrite app_nil_r. by destruct b.
  - rewrite IH. destruct (in_particle_range cfg range p).
    + cbn [add_particle base_coord nodes particles].
      by rewrite <- app_assoc.
    + reflexivity.
Qed.

Lemma gather_all range (blocks : list (option Block)) b :
  fold_left
    (fun b ab => match ab with
                 | None => b
                 | Some ab => gather cfg range b ab
                 end) blocks b
  = mkBlock (base_coord b) (nodes b)
      (particles b
       ++ List.filter (in_particle_range cfg range)
            (omap id blocks ≫= particles)).
Proof.
  revert b. induction blocks as [|[ab|] blocks IH]; intros b;
    cbn [fold_left omap list_omap id].
  - cbn. rewrite app_nil_r. by destruct b.
  - rewrite IH, gather_particles_of.
    cbn [base_coord nodes particles mbind list_bind].
    rewrite List.filter_app, app_assoc. reflexivity.
  - apply IH.
Qed.

Lemma block_task_result b an self :
  ancestor_at an (Vec.splat 0%Z) = Some self ->
  block_task cfg size b an
  = Some (mkBlock (base_coord b)
            (memcpy (nodes b) (nodes self) (length (nodes b)))
            (particles b
             ++ List.filter (in_particle_range cfg (particle_range size b))
                  (ancestor_particles an))).
Proof.
  intros Hself. unfold block_task. rewrite Hself, gather_all.
  reflexivity.
Qed.
End Migration.



(** a failed task ends the construction of the new generation *)
Lemma grid_advance_fails cfg size (grid : gmap (VectorND Z) Block) coord old :
  grid !! coord = Some old ->
  block_task cfg size (new_block old) (ancestors_of size grid (base_coord old))
  = None ->
  grid_advance cfg size grid = None.
Proof.
  intros Hold Htask. unfold grid_advance. cbv zeta.
  destruct (decide _) as [Hall|]; [|reflexivity].
  exfalso. specialize (Hall coord None).
  rewrite lookup_fmap, Hold in Hall. cbn in Hall. rewrite Htask in Hall.
  destruct (Hall eq_refl) as [? [=]].
Qed.

(** a substep that aborts ends [advance] *)
Lemma advance_aborts {V} `{SPHTest V} cfg fuel (s : Run V) :
  substep cfg s = None ->
  0 < frame_dt cfg / dt cfg ->
  advance cfg (S fuel) s = Aborts.
Proof.
  intros Hsub Hpos. unfold advance. cbn [advance_loop].
  destruct (Qlt_le_dec (inject_Z 0) (frame_dt cfg / dt cfg)) as [_|Hle].
  - by rewrite Hsub.
  - exfalso. exact (Qlt_not_le _ _ Hpos Hle).
Qed.

(** C9: the task of a block fails when the ancestor at offset (0,0,0) is
    absent, and the failure ends the substep and the call of [advance]
    around it; when the ancestor is present, with a node array of the
    same size as the block's, the task returns and the block's node
    array is that ancestor's node array. *)
Theorem self_ancestor_required cfg size (b : Block) (an : Ancestors) :
  (ancestor_at an (Vec.splat 0%Z) = None ->
   block_task cfg size b an = None) /\
  (forall self,
     ancestor_at an (Vec.splat 0%Z) = Some self ->
     length (nodes b) = length (nodes self) ->
     exists b', block_task cfg size b an = Some b' /\
                nodes b' = nodes self) /\
  (forall (grid : gmap (VectorND Z) Block) coord old fuel frame files,
     grid !! coord = Some old ->
     ancestor_at (ancestors_of size grid (base_coord old)) (Vec.splat 0%Z)
     = None ->
     0 < frame_dt cfg / dt cfg ->
     advance (H := Pangu size) cfg (S fuel) (mkRun frame grid files)
     = Aborts).
Proof.
  split; [|split].
  - intros Hnone. unfold block_task. by rewrite Hnone.
  - intros self Hself Hlen.
    rewrite (block_task_result cfg size b an self Hself).
    eexists. split; [reflexivity|]. cbn [nodes]. unfold memcpy.
    rewrite Hlen, take_ge, drop_ge by lia. apply app_nil_r.
  - intros grid coord old fuel frame files Hold Hnone Hpos.
    apply advance_aborts; [|exact Hpos].
    cbn [substep Pangu]. unfold Pangu_substep. cbn [body].
    rewrite (grid_advance_fails cfg size grid coord old Hold);
      [reflexivity|].
    unfold block_task. by rewrite Hnone.
Qed.

Lemma self_ancestor_required_witness :
  block_task SPHTestBase_new (mkVector 2%Z 2%Z 2%Z) block_lower
    (mkAncestors (replicate 27 None)) = None /\
  (exists b',
     block_task SPHTestBase_new (mkVector 2%Z 2%Z 2%Z) block_lower
       (only_self (mkBlock (mkVector 0%Z 0%Z 0%Z) [1; 2; 3; 4; 5; 6; 7; 8]%Z
                     [])) = Some b' /\
     nodes b' = [1; 2; 3; 4; 5; 6; 7; 8]%Z) /\
  advance (H := Pangu (mkVector 2%Z 2%Z 2%Z)) SPHTestBase_new 1
    (mkRun 0 {[ mkVector 0%Z 0%Z 0%Z := block_upper ]} [])
  = Aborts.
Proof.
  split; [|split].
  - apply (proj1 (self_ancestor_required SPHTestBase_new
                    (mkVector 2%Z 2%Z 2%Z) block_lower
                    (mkAncestors (replicate 27 None)))).
    reflexivity.
  - apply (proj1 (proj2 (self_ancestor_required SPHTestBase_new
                           (mkVector 2%Z 2%Z 2%Z) block_lower
                           (only_self (mkBlock (mkVector 0%Z 0%Z 0%Z)
                                         [1; 2; 3; 4; 5; 6; 7; 8]%Z []))))
             (mkBlock (mkVector 0%Z 0%Z 0%Z) [1; 2; 3; 4; 5; 6; 7; 8]%Z [])).
    + reflexivity.
    + reflexivity.
  - apply (proj2 (proj2 (self_ancestor_required SPHTestBase_new
                           (mkVector 2%Z 2%Z 2%Z) block_lower
                           (mkAncestors (replicate 27 None))))
             {[ mkVector 0%Z 0%Z 0%Z := block_upper ]}
             (mkVector 0%Z 0%Z 0%Z) block_upper 0%nat 0%Z []).
    + vm_compute. reflexivity.
    + vm_compute. reflexivity.
    + reflexivity.
Defined.

(** *** The extents of the blocks of the lattice *)






(** * Further properties *)

(** ** The box of the brute-force variant *)

Section Box.
Variable cfg : SPHTestBase.

Lemma clamp_in_box p : in_box cfg (clamp cfg p).
Proof.
  unfold in_box.
  destruct (clamp_vertical cfg p) as (-> & _).
  destruct (clamp_along_x cfg p) as (-> & _).
  destruct (clamp_along_z cfg p) as (-> & _).
  cbv zeta. unfold clamp_y_low. repeat split.
  - destruct (Qlt_le_dec (y (position p)) (h cfg / 2)) as [_|Hge];
      [apply Qle_refl | exact Hge].
  - repeat split_test; lra.
  - repeat split_test; lra.
  - repeat split_test; lra.
  - repeat split_test; lra.
Qed.

End Box.



(** X2: the five clamps together are idempotent: clamping a clamped
    particle changes nothing. *)
Theorem clamp_idempotent cfg p : clamp cfg (clamp cfg p) = clamp cfg p.
Proof.
  destruct (clamp_in_box cfg p) as (Hy & [Hx Hx1] & [Hz Hz1]).
  by apply clamp_inside.
Qed.

(** ** The density pass *)

Section DensityPass.
Variable pi : Q.
Variable cfg : SPHTestBase.

Lemma same_motion_density_update l p :
  same_motion (density_update pi cfg l p) p.
Proof. split; reflexivity. Qed.

Lemma rho_fold_same p p' l l' acc :
  Forall2 same_motion l l' -> position p = position p' ->
  fold_left (rho_add cfg p) l acc = fold_left (rho_add cfg p') l' acc.
Proof.
  intros Hl Hp. revert acc.
  induction Hl as [|q q' l l' [Hq _] _ IH]; intros acc; [reflexivity|].
  cbn [fold_left]. rewrite <- IH. f_equal.
  unfold rho_add, dpos2_of. by rewrite Hp, Hq.
Qed.

(** the update of the density pass reads positions only *)
Lemma density_update_same l l' p p' :
  Forall2 same_motion l l' -> same_motion p p' ->
  density_update pi cfg l p = density_update pi cfg l' p'.
Proof.
  intros Hl [Hp Hv]. unfold density_update, rho_of.
  rewrite (rho_fold_same p p' l l' 0 Hl Hp).
  unfold set_velocity_3, set_position_3. cbn [position velocity].
  by rewrite Hp, Hv.
Qed.

Lemma density_visits order (ps : list Particle) i :
  pass_in (density_update pi cfg) order ps !! i
  = (fun p => if decide (i ∈ order) then density_update pi cfg ps p else p)
      <$> ps !! i.
Proof.
  induction order as [|a order IH] using rev_ind in i |- *.
  - cbn. destruct (ps !! i); cbn; [|reflexivity].
    destruct (decide (i ∈ [])) as [Hin|_]; [|reflexivity].
    by apply not_elem_of_nil in Hin.
  - rewrite pass_in_snoc.
    set (l := pass_in (density_update pi cfg) order ps) in *.
    assert (Forall2 same_motion l ps) as Hsame.
    { apply Forall2_same_length_lookup. split.
      - apply pass_in_length.
      - intros j q p Hq Hp. rewrite IH, Hp in Hq. cbn in Hq.
        injection Hq as <-.
        destruct (decide (j ∈ order));
          [apply same_motion_density_update | split; reflexivity]. }
    destruct (decide (i = a)) as [->|Hne].
    + destruct (l !! a) as [q|] eqn:Hq.
      * rewrite (in_place_self _ l a q Hq).
        pose proof Hq as Hq'. rewrite IH in Hq'.
        destruct (ps !! a) as [p|] eqn:Hp; [|discriminate].
        cbn in Hq' |- *. injection Hq' as Hq'.
        destruct (decide (a ∈ order ++ [a])) as [_|Hn];
          [|exfalso; apply Hn; set_solver].
        f_equal. apply density_update_same; [exact Hsame|].
        subst q. destruct (decide (a ∈ order));
          [apply same_motion_density_update | split; reflexivity].
      * unfold in_place. rewrite Hq, Hq.
        rewrite IH in Hq. by destruct (ps !! a).
    + rewrite in_place_other by congruence. rewrite IH.
      destruct (ps !! i) as [p|]; [|reflexivity]. cbn.
      destruct (decide (i ∈ order)) as [Hin|Hin],
        (decide (i ∈ order ++ [a])) as [Hin'|Hin'];
        try reflexivity; exfalso.
      * apply Hin', elem_of_app. by left.
      * apply elem_of_app in Hin' as [Hin'|Hin']; [contradiction|].
        apply list_elem_of_singleton in Hin'. contradiction.
Qed.
End DensityPass.

(** X3: the density pass writes the two spare lanes only and reads
    positions only, so that, unlike the force pass, it does not depend
    on the order of its visits: whatever the order, every visited
    particle ends as its update computed from the vector the pass
    started with, and the pass in the order of the vector is the map of
    that update. *)
Theorem density_pass_order_free pi cfg (ps : list Particle) :
  (forall order i,
     pass_in (density_update pi cfg) order ps !! i
     = (fun p =>
          if decide (i ∈ order) then density_update pi cfg ps p else p)
         <$> ps !! i) /\
  (forall order1 order2,
     (forall i, i ∈ order1 <-> i ∈ order2) ->
     pass_in (density_update pi cfg) order1 ps
     = pass_in (density_update pi cfg) order2 ps) /\
  density_pass pi cfg ps = density_update pi cfg ps <$> ps /\
  Forall2 same_motion (density_pass pi cfg ps) ps.
Proof.
  split; [|split; [|split]].
  - intros order i. apply density_visits.
  - intros order1 order2 Hsame. apply list_eq. intros i.
    rewrite !density_visits. destruct (ps !! i) as [p|]; [|reflexivity].
    cbn. destruct (decide (i ∈ order1)) as [H1|H1],
           (decide (i ∈ order2)) as [H2|H2];
      try reflexivity; exfalso; apply Hsame in H1 || apply Hsame in H2;
      contradiction.
  - apply list_eq. intros i. unfold density_pass.
    rewrite density_visits, list_lookup_fmap.
    destruct (ps !! i) as [p|] eqn:Hp; [|reflexivity]. cbn.
    destruct (decide (i ∈ seq 0 (length ps))) as [_|Hn]; [reflexivity|].
    exfalso. apply Hn. apply elem_of_seq.
    apply lookup_lt_Some in Hp. lia.
  - apply Forall2_same_length_lookup. split.
    + apply pass_in_length.
    + intros i q p Hq Hp. unfold density_pass in Hq.
      rewrite density_visits, Hp in Hq. cbn in Hq. injection Hq as <-.
      destruct (decide _); [apply same_motion_density_update|].
      split; reflexivity.
Qed.

Lemma density_pass_order_free_witness :
  pass_in (density_update pi_f SPHTestBase_new) [0; 1]%nat [p_low; p_high]
  = pass_in (density_update pi_f SPHTestBase_new) [1; 0]%nat
      [p_low; p_high].
Proof.
  destruct (density_pass_order_free pi_f SPHTestBase_new [p_low; p_high])
    as (_ & Horder & _).
  apply Horder. intros i. rewrite !elem_of_cons. tauto.
Defined.

(** ** The kernel *)

Section Kernel.
Variable pi : Q.
Variable cfg : SPHTestBase.

Lemma dpos2_sym p q : dpos2_of p q == dpos2_of q p.
Proof. unfold dpos2_of, Vec.length2, Vec.sub; cbn. ring. Qed.

Lemma dpos2_nonneg p q : 0 <= dpos2_of p q.
Proof.
  unfold dpos2_of, Vec.length2.
  set (d := position q -v position p).
  assert (0 <= x d * x d) as Hx by nra.
  assert (0 <= y d * y d) as Hy by nra.
  assert (0 <= z d * z d) as Hz by nra.
  lra.
Qed.

Lemma kernel_term_bound (d : Q) :
  0 <= d -> d < h cfg * h cfg ->
  Qmax 0 ((h cfg * h cfg - d) ^ 3) <= (h cfg * h cfg) ^ 3.
Proof.
  intros Hd Hlt. set (hh := h cfg * h cfg) in *.
  assert ((hh - d) ^ 3 == (hh - d) * (hh - d) * (hh - d)) as E1 by ring.
  assert (hh ^ 3 == hh * hh * hh) as E2 by ring.
  assert (0 <= (hh - d) * (hh - d)) as H2 by nra.
  assert ((hh - d) * (hh - d) <= hh * hh) as H3 by nra.
  assert (0 <= (hh - d) * (hh - d) * (hh - d)) as H4 by nra.
  assert ((hh - d) * (hh - d) * (hh - d) <= hh * hh * hh) as H5 by nra.
  apply Q.max_lub; rewrite ?E1, E2; lra.
Qed.

Lemma rho_add_bound p rho q :
  0 <= h cfg * h cfg ->
  rho_add cfg p rho q <= rho + (h cfg * h cfg) ^ 3.
Proof.
  intros Hh. unfold rho_add.
  destruct (Qlt_le_dec (dpos2_of p q) (h cfg * h cfg)) as [Hlt|_].
  - pose proof (kernel_term_bound (dpos2_of p q) (dpos2_nonneg p q) Hlt).
    lra.
  - assert ((h cfg * h cfg) ^ 3
            == (h cfg * h cfg) * (h cfg * h cfg) * (h cfg * h cfg)) as E
      by ring.
    rewrite E. nra.
Qed.

Lemma rho_fold_bound p qs rho :
  0 <= h cfg * h cfg ->
  fold_left (rho_add cfg p) qs rho
  <= rho + inject_Z (Z.of_nat (length qs)) * (h cfg * h cfg) ^ 3.
Proof.
  intros Hh. revert rho. set (t := (h cfg * h cfg) ^ 3) in *.
  induction qs as [|q qs IH]; intros rho.
  - change (rho <= rho + 0 * t). lra.
  - cbn [fold_left length].
    rewrite Nat2Z.inj_succ, <- Z.add_1_r, inject_Z_plus.
    eapply Qle_trans; [apply IH|].
    pose proof (rho_add_bound p rho q Hh) as Hq. fold t in Hq.
    change (inject_Z 1) with 1.
    generalize dependent (inject_Z (Z.of_nat (length qs))). intros n _.
    lra.
Qed.
End Kernel.

(** X4: computed on the same values, the pressure term that [q] adds to
    the sum of [p] is the opposite of the term that [p] adds to the sum
    of [q]: the coefficient is symmetric in the pair and the gradient
    changes sign. *)
Theorem pressure_terms_opposite cfg (p q : Particle) :
  pressure_add cfg p Vec.zero q +v pressure_add cfg q Vec.zero p
  =v= Vec.zero.
Proof.
  pose proof (dpos2_sym p q) as Hsym. unfold dpos2_of in Hsym.
  unfold pressure_add.
  destruct (Qlt_le_dec (Vec.length2 (position q -v position p)) _) as [H1|H1],
    (Qlt_le_dec (Vec.length2 (position p -v position q)) _) as [H2|H2].
  - unfold Vec.eqv, Vec.length2; cbn. repeat split; ring.
  - exfalso. rewrite Hsym in H1. exact (Qlt_not_le _ _ H1 H2).
  - exfalso. rewrite <- Hsym in H2. exact (Qlt_not_le _ _ H2 H1).
  - unfold Vec.eqv; cbn. repeat split; ring.
Qed.

(** X5: the density computed for a particle is never negative and is at
    most [c * n * (h^2)^3], where [n] is the number of particles: every
    particle within [h] adds at most the kernel value at distance
    zero. *)
Theorem density_bounded pi cfg (ps : list Particle) (p : Particle) :
  0 < pi -> 0 < h cfg ->
  0 <= rho_of pi cfg ps p /\
  rho_of pi cfg ps p
  <= c pi cfg * (inject_Z (Z.of_nat (length ps)) * (h cfg * h cfg) ^ 3).
Proof.
  intros Hpi Hh.
  pose proof (c_positive pi cfg Hpi Hh) as Hc.
  assert (0 <= h cfg * h cfg) as Hhh by nra.
  pose proof (rho_fold_mono cfg p ps 0) as Hlo.
  pose proof (rho_fold_bound cfg p ps 0 Hhh) as Hhi.
  unfold rho_of. set (r := fold_left (rho_add cfg p) ps 0) in *.
  set (b := inject_Z (Z.of_nat (length ps)) * (h cfg * h cfg) ^ 3) in *.
  split.
  - apply Qmult_le_0_compat; [exact Hlo | lra].
  - rewrite (Qmult_comm r). apply Qmult_le_l; [exact Hc | lra].
Qed.

Lemma density_bounded_witness :
  0 <= rho_of pi_f SPHTestBase_new [p_low; p_high] p_low /\
  rho_of pi_f SPHTestBase_new [p_low; p_high] p_low
  <= c pi_f SPHTestBase_new
     * (inject_Z (Z.of_nat (length [p_low; p_high]))
        * (h SPHTestBase_new * h SPHTestBase_new) ^ 3).
Proof.
  apply (density_bounded pi_f SPHTestBase_new [p_low; p_high] p_low);
    reflexivity.
Defined.

(** ** Runs of the task *)

Lemma next_frames_cons frame n :
  next_frames frame (S n) = (frame + 1)%Z :: next_frames (frame + 1) n.
Proof.
  unfold next_frames. cbn [seq]. rewrite <- fmap_S_seq, fmap_cons.
  f_equal; [lia|].
  rewrite <- list_fmap_compose.
  apply list_fmap_ext. intros i t _. cbn. lia.
Qed.

Lemma next_frames_app frame n m :
  next_frames frame (n + m)
  = next_frames frame n ++ next_frames (frame + Z.of_nat n) m.
Proof.
  revert frame. induction n as [|n IH]; intros frame.
  - cbn [Nat.add Z.of_nat]. by rewrite Z.add_0_r.
  - cbn [Nat.add]. rewrite !next_frames_cons, IH. cbn [app].
    replace (frame + 1 + Z.of_nat n)%Z with (frame + Z.of_nat (S n))%Z
      by lia.
    reflexivity.
Qed.

Lemma next_frames_NoDup frame n : NoDup (next_frames frame n).
Proof.
  unfold next_frames. apply NoDup_fmap_2; [|apply NoDup_seq].
  intros a b Hab. lia.
Qed.

Lemma BruteForce_substeps pi cfg n (s : Run (list Particle)) :
  substeps (H := BruteForce pi) cfg n s
  = Some (mkRun (current_frame s)
            (Nat.iter n (BruteForce_substep pi cfg) (body s)) (written s)).
Proof.
  revert s. induction n as [|n IH]; intros s.
  - by destruct s.
  - cbn [substeps substep BruteForce]. rewrite IH.
    cbn [current_frame body written]. by rewrite Nat.iter_succ_r.
Qed.

Lemma BruteForce_advance pi cfg fuel (s : Run (list Particle)) :
  (substeps_per_frame cfg < fuel)%nat ->
  advance (H := BruteForce pi) cfg fuel s
  = Returns
      (mkRun (current_frame s + 1)%Z
         (Nat.iter (substeps_per_frame cfg) (BruteForce_substep pi cfg)
            (body s))
         (written s
          ++ [((current_frame s + 1)%Z,
               map (fun p => (position p v* 10, h cfg * 10))
                 (Nat.iter (substeps_per_frame cfg)
                    (BruteForce_substep pi cfg) (body s)))])).
Proof.
  intros Hfuel. rewrite advance_substeps by exact Hfuel.
  rewrite BruteForce_substeps. unfold finish_frame.
  cbn [output BruteForce current_frame body written].
  unfold BruteForce_output, write_to_binary_file, get_filename.
  cbn [current_frame body written]. by rewrite scene_fold.
Qed.

Lemma BruteForce_run_frames pi cfg fuel frames (s : Run (list Particle)) :
  (substeps_per_frame cfg < fuel)%nat ->
  exists s',
    run_frames (H := BruteForce pi) cfg fuel frames s = Returns s' /\
    body s'
    = Nat.iter (frames * substeps_per_frame cfg)
        (BruteForce_substep pi cfg) (body s) /\
    current_frame s' = (current_frame s + Z.of_nat frames)%Z /\
    map fst (written s')
    = map fst (written s) ++ next_frames (current_frame s) frames.
Proof.
  intros Hfuel. revert s. induction frames as [|frames IH]; intros s.
  - exists s. cbn. rewrite app_nil_r. repeat split; lia.
  - cbn [run_frames]. rewrite BruteForce_advance by exact Hfuel.
    destruct (IH (mkRun (current_frame s + 1)%Z
                    (Nat.iter (substeps_per_frame cfg)
                       (BruteForce_substep pi cfg) (body s))
                    (written s
                     ++ [((current_frame s + 1)%Z,
                          map (fun p => (position p v* 10, h cfg * 10))
                            (Nat.iter (substeps_per_frame cfg)
                               (BruteForce_substep pi cfg) (body s)))])))
      as (s' & Hrun & Hbody & Hframe & Hnames).
    cbn [current_frame body written] in Hbody, Hframe, Hnames.
    exists s'. split; [exact Hrun|]. split; [|split].
    + rewrite Hbody. cbn [Nat.mul]. rewrite Nat.add_comm.
      by rewrite Nat.iter_add.
    + lia.
    + rewrite Hnames, map_app, next_frames_cons, <- app_assoc. reflexivity.
Qed.

(** X6: the loop of the task [sph] on the brute-force variant never
    aborts: with enough fuel for the loop of one frame it returns after
    [total_frames] calls of [advance], that is after
    [total_frames * n] substeps, [n] the number of substeps of a frame;
    it has then written one file per frame, named by the consecutive
    frame numbers that follow the starting one. *)
Theorem BruteForce_run pi cfg fuel (s : Run (list Particle)) :
  (substeps_per_frame cfg < fuel)%nat ->
  exists s',
    sph_loop (H := BruteForce pi) cfg fuel s = Returns s' /\
    body s'
    = Nat.iter (Z.to_nat (total_frames cfg) * substeps_per_frame cfg)
        (BruteForce_substep pi cfg) (body s) /\
    current_frame s'
    = (current_frame s + Z.of_nat (Z.to_nat (total_frames cfg)))%Z /\
    map fst (written s')
    = map fst (written s)
      ++ next_frames (current_frame s) (Z.to_nat (total_frames cfg)).
Proof. intros Hfuel. by apply BruteForce_run_frames. Qed.

Lemma BruteForce_run_witness :
  exists s',
    sph_loop (H := BruteForce pi_f) SPHTestBase_new 400 (mkRun 0 [p_mid] [])
    = Returns s' /\
    body s'
    = Nat.iter (Z.to_nat (total_frames SPHTestBase_new)
                * substeps_per_frame SPHTestBase_new)
        (BruteForce_substep pi_f SPHTestBase_new) [p_mid] /\
    current_frame s'
    = (0 + Z.of_nat (Z.to_nat (total_frames SPHTestBase_new)))%Z /\
    map fst (written s')
    = map fst (written (mkRun 0 [p_mid] []))
      ++ next_frames 0 (Z.to_nat (total_frames SPHTestBase_new)).
Proof.
  apply (BruteForce_run pi_f SPHTestBase_new 400 (mkRun 0 [p_mid] [])).
  vm_compute. lia.
Defined.

(** *** File names of the block-grid variant *)

Lemma Pangu_substeps_names cfg size n (s s' : Run (gmap (VectorND Z) Block)) :
  substeps (H := Pangu size) cfg n s = Some s' ->
  current_frame s' = (current_frame s + Z.of_nat n)%Z /\
  map fst (written s')
  = map fst (written s) ++ next_frames (current_frame s) n.
Proof.
  revert s. induction n as [|n IH]; intros s Hrun.
  - injection Hrun as <-. cbn. rewrite app_nil_r. split; [lia|reflexivity].
  - cbn [substeps substep Pangu] in Hrun.
    destruct (Pangu_substep cfg size s) as [s1|] eqn:Hs1; [|discriminate].
    apply Pangu_substep_writes in Hs1 as [Hf Hw].
    apply IH in Hrun as [Hf' Hw'].
    rewrite Hf', Hw', Hw, Hf, map_app, next_frames_cons, <- app_assoc.
    split; [lia|reflexivity].
Qed.

Lemma Pangu_advance_names cfg size fuel (s : Run (gmap (VectorND Z) Block)) :
  (substeps_per_frame cfg < fuel)%nat ->
  on_return
    (fun s' =>
       current_frame s'
       = (current_frame s + Z.of_nat (S (substeps_per_frame cfg)))%Z /\
       map fst (written s')
       = map fst (written s)
         ++ next_frames (current_frame s) (S (substeps_per_frame cfg)))
    (advance (H := Pangu size) cfg fuel s).
Proof.
  intros Hfuel. rewrite advance_substeps by exact Hfuel.
  destruct (substeps cfg (substeps_per_frame cfg) s) as [s1|] eqn:Hs1;
    [|exact I].
  apply Pangu_substeps_names in Hs1 as [Hf Hw].
  cbn [on_return]. unfold finish_frame.
  cbn [output Pangu current_frame body written].
  unfold Pangu_output, write_to_binary_file, get_filename.
  cbn [current_frame body written].
  rewrite map_app, Hw, Hf, <- app_assoc. cbn [map fst].
  replace (S (substeps_per_frame cfg))
    with (substeps_per_frame cfg + 1)%nat by lia.
  rewrite next_frames_app. split; [lia|]. do 2 f_equal.
  by rewrite next_frames_cons.
Qed.

(** X7: in the block-grid variant every file written during a call of
    [advance] has a name of its own: the substeps and the end of the
    frame each add one to the frame counter before they write, so the
    names are the [n + 1] consecutive frame numbers that follow the
    starting one, [n] the number of substeps of a frame. *)
Theorem Pangu_advance_file_names cfg size fuel
    (s : Run (gmap (VectorND Z) Block)) :
  (substeps_per_frame cfg < fuel)%nat ->
  on_return
    (fun s' =>
       current_frame s'
       = (current_frame s + Z.of_nat (S (substeps_per_frame cfg)))%Z /\
       map fst (written s')
       = map fst (written s)
         ++ next_frames (current_frame s) (S (substeps_per_frame cfg)) /\
       NoDup (next_frames (current_frame s) (S (substeps_per_frame cfg))))
    (advance (H := Pangu size) cfg fuel s).
Proof.
  intros Hfuel.
  pose proof (Pangu_advance_names cfg size fuel s Hfuel) as Hnames.
  destruct (advance cfg fuel s) as [s'| |]; cbn [on_return] in *;
    [|exact I|exact Hnames].
  destruct Hnames as [Hf Hw]. repeat split; [exact Hf | exact Hw |].
  apply next_frames_NoDup.
Qed.

Lemma Pangu_advance_file_names_witness :
  on_return
    (fun s' =>
       current_frame s'
       = (0 + Z.of_nat (S (substeps_per_frame SPHTestBase_new)))%Z /\
       map fst (written s')
       = map fst (written (mkRun 0 one_block []))
         ++ next_frames 0 (S (substeps_per_frame SPHTestBase_new)) /\
       NoDup (next_frames 0 (S (substeps_per_frame SPHTestBase_new))))
    (advance (H := Pangu (mkVector 2%Z 2%Z 2%Z)) SPHTestBase_new 400
       (mkRun 0 one_block [])).
Proof.
  apply (Pangu_advance_file_names SPHTestBase_new (mkVector 2%Z 2%Z 2%Z) 400
           (mkRun 0 one_block [])).
  vm_compute. lia.
Defined.

(** ** Free fall of a single particle *)

Section FreeFall.
Variable pi : Q.
Variable cfg : SPHTestBase.

Lemma in_box_eqv p q :
  position p =v= position q -> in_box cfg q -> in_box cfg p.
Proof.
  intros (Hx & Hy & Hz). unfold in_box. by rewrite Hx, Hy, Hz.
Qed.

Lemma substep_singleton q :
  BruteForce_substep pi cfg [q]
  = [force_update cfg [density_update pi cfg [q] q]
       (density_update pi cfg [q] q)].
Proof. reflexivity. Qed.

Lemma pressure_of_lone q : pressure_of cfg [q] q =v= Vec.zero.
Proof. exact (pressure_add_self cfg q Vec.zero). Qed.

(** the force update of a lone particle that stays in the box *)
Lemma lone_force_update q :
  in_box cfg
    (set_position q
       (position q
        +v (velocity q +v gravity cfg v* (dt cfg * dt cfg)) v* dt cfg)) ->
  velocity (force_update cfg [q] q)
  =v= velocity q +v gravity cfg v* (dt cfg * dt cfg) /\
  position (force_update cfg [q] q)
  =v= position q +v velocity (force_update cfg [q] q) v* dt cfg.
Proof.
  intros Hbox. unfold force_update.
  pose proof (integrate_velocity cfg [q] q) as Hv.
  pose proof (integrate_position cfg [q] q) as Hpos.
  pose proof (pressure_of_lone q) as Hp.
  revert Hv Hpos Hp.
  generalize (integrate cfg [q] q) (pressure_of cfg [q] q).
  intros q' pr Hv Hpos Hp.
  assert (velocity q' =v= velocity q +v gravity cfg v* (dt cfg * dt cfg))
    as Hv'.
  { destruct Hv as (Hvx & Hvy & Hvz), Hp as (Hpx & Hpy & Hpz).
    unfold Vec.eqv.
    cbv [Vec.add Vec.scale Vec.times Vec.zero Vec.splat x y z] in *.
    rewrite Hvx, Hvy, Hvz, Hpx, Hpy, Hpz. repeat split; ring. }
  assert (in_box cfg q') as (Hy & [Hx Hx1] & [Hz Hz1]).
  { eapply in_box_eqv; [|exact Hbox]. rewrite Hpos.
    destruct Hv' as (Hvx & Hvy & Hvz). unfold Vec.eqv.
    cbv [Vec.add Vec.times set_position position x y z] in *.
    rewrite Hvx, Hvy, Hvz. repeat split; reflexivity. }
  rewrite clamp_inside by assumption.
  split; [exact Hv'|]. rewrite Hpos. repeat split; reflexivity.
Qed.

(** one substep on a vector of one particle that stays in the box *)
Lemma lone_substep q :
  in_box cfg
    (set_position q
       (position q
        +v (velocity q +v gravity cfg v* (dt cfg * dt cfg)) v* dt cfg)) ->
  exists q',
    BruteForce_substep pi cfg [q] = [q'] /\
    velocity q' =v= velocity q +v gravity cfg v* (dt cfg * dt cfg) /\
    position q' =v= position q +v velocity q' v* dt cfg.
Proof.
  intros Hbox. rewrite substep_singleton.
  eexists. split; [reflexivity|].
  apply (lone_force_update (density_update pi cfg [q] q)).
  exact Hbox.
Qed.
End FreeFall.

Lemma inject_Z_succ (n : nat) :
  inject_Z (Z.of_nat (S n)) == inject_Z (Z.of_nat n) + 1.
Proof. rewrite Nat2Z.inj_succ, <- Z.add_1_r, inject_Z_plus. reflexivity. Qed.

Lemma free_fall_step cfg p q N :
  position q =v= position (free_fall cfg p N) ->
  velocity q =v= velocity (free_fall cfg p N) ->
  velocity q +v gravity cfg v* (dt cfg * dt cfg)
  =v= velocity (free_fall cfg p (S N)) /\
  position q +v (velocity q +v gravity cfg v* (dt cfg * dt cfg)) v* dt cfg
  =v= position (free_fall cfg p (S N)).
Proof.
  intros (Hx & Hy & Hz) (Hvx & Hvy & Hvz).
  pose proof (inject_Z_succ N) as Hn.
  unfold Vec.eqv, free_fall in *.
  cbv [Vec.add Vec.times position velocity x y z] in *.
  rewrite Hx, Hy, Hz, Hvx, Hvy, Hvz, Hn.
  repeat split; ring.
Qed.

(** X8: a single particle on which no clamp acts follows the closed form
    of free fall under the integration of the code: after [N] substeps
    its velocity is the starting velocity plus [N * gravity * dt * dt]
    and its position the starting position plus
    [N * velocity * dt + N (N + 1) / 2 * gravity * dt^3], as long as all
    the positions of the closed form up to [N] are in the box of the
    clamps. *)
Theorem free_fall_closed_form pi cfg (p : Particle) (N : nat) :
  (forall m, (1 <= m <= N)%nat -> in_box cfg (free_fall cfg p m)) ->
  exists q,
    Nat.iter N (BruteForce_substep pi cfg) [p] = [q] /\
    position q =v= position (free_fall cfg p N) /\
    velocity q =v= velocity (free_fall cfg p N).
Proof.
  induction N as [|N IH]; intros Hbox.
  - exists p. split; [reflexivity|].
    unfold Vec.eqv, free_fall.
    cbv [Vec.add Vec.times position velocity x y z].
    change (inject_Z (Z.of_nat 0)) with 0. repeat split; ring.
  - destruct IH as (q & Hq & Hpos & Hvel).
    { intros m Hm. apply Hbox. lia. }
    destruct (free_fall_step cfg p q N Hpos Hvel) as (Hv' & Hp').
    destruct (lone_substep pi cfg q) as (q' & Hq' & Hvq & Hpq).
    { apply (in_box_eqv cfg _ (free_fall cfg p (S N))).
      - exact Hp'.
      - apply Hbox. lia. }
    exists q'. rewrite Nat.iter_succ, Hq. split; [exact Hq'|].
    destruct Hvq as (Hvx & Hvy & Hvz), Hv' as (Hvx' & Hvy' & Hvz'),
      Hpq as (Hpx & Hpy & Hpz), Hp' as (Hpx' & Hpy' & Hpz').
    unfold Vec.eqv in *.
    cbv [Vec.add Vec.times x y z] in Hpx, Hpy, Hpz, Hpx', Hpy', Hpz',
      Hvx, Hvy, Hvz, Hvx', Hvy', Hvz'.
    repeat split.
    + rewrite Hpx, Hvx. exact Hpx'.
    + rewrite Hpy, Hvy. exact Hpy'.
    + rewrite Hpz, Hvz. exact Hpz'.
    + rewrite Hvx. exact Hvx'.
    + rewrite Hvy. exact Hvy'.
    + rewrite Hvz. exact Hvz'.
Qed.

Lemma free_fall_closed_form_witness :
  exists q,
    Nat.iter 3 (BruteForce_substep pi_f SPHTestBase_new) [p_mid] = [q] /\
    position q =v= position (free_fall SPHTestBase_new p_mid 3) /\
    velocity q =v= velocity (free_fall SPHTestBase_new p_mid 3).
Proof.
  apply (free_fall_closed_form pi_f SPHTestBase_new p_mid 3).
  intros m Hm.
  destruct m as [|[|[|[|m]]]]; try lia;
    vm_compute; repeat split; discriminate.
Defined.

(** ** The task [sph2d] *)

Module Sph2dFacts.
Import Sph2d.

Lemma sph2d_in_place_length f ps i : length (in_place f ps i) = length ps.
Proof.
  unfold in_place. destruct (ps !! i); [apply length_insert | reflexivity].
Qed.

Lemma sph2d_loop_length f order ps :
  length (fold_left (in_place f) order ps) = length ps.
Proof.
  revert ps. induction order as [|i order IH]; intros ps; [reflexivity|].
  cbn [fold_left]. rewrite IH. apply sph2d_in_place_length.
Qed.

Lemma sph2d_pass_length f ps : length (pass f ps) = length ps.
Proof. apply sph2d_loop_length. Qed.

Lemma sph2d_in_place_self f l i q :
  l !! i = Some q -> in_place f l i !! i = Some (f l q).
Proof.
  intros Hq. unfold in_place. rewrite Hq.
  apply list_lookup_insert_eq. by eapply lookup_lt_Some.
Qed.

Lemma sph2d_in_place_other f l i j :
  i <> j -> in_place f l j !! i = l !! i.
Proof.
  intros Hne. unfold in_place. destruct (l !! j); [|reflexivity].
  by rewrite list_lookup_insert_ne by congruence.
Qed.

(** every particle the loop has visited is the result of an update *)
Lemma sph2d_loop_visited f (P : Particle -> Prop) order ps visited :
  (forall store p, P (f store p)) ->
  (forall i q, ps !! i = Some q -> i ∈ visited -> P q) ->
  forall i q,
    fold_left (in_place f) order ps !! i = Some q ->
    i ∈ visited ++ order -> P q.
Proof.
  intros Hf. revert ps visited.
  induction order as [|a order IH]; intros ps visited Hinv i q Hq Hi.
  - rewrite app_nil_r in Hi. by eapply Hinv.
  - cbn [fold_left] in Hq.
    eapply (IH (in_place f ps a) (visited ++ [a])); [|exact Hq|].
    + intros j r Hr Hj.
      destruct (decide (j = a)) as [->|Hne].
      * destruct (ps !! a) as [p|] eqn:Hp.
        -- rewrite (sph2d_in_place_self f ps a p Hp) in Hr.
           injection Hr as <-. apply Hf.
        -- unfold in_place in Hr. rewrite Hp in Hr. congruence.
      * rewrite sph2d_in_place_other in Hr by exact Hne.
        apply (Hinv j r Hr).
        apply elem_of_app in Hj as [Hj|Hj]; [exact Hj|].
        apply list_elem_of_singleton in Hj. contradiction.
    + by rewrite <- app_assoc.
Qed.

Lemma sph2d_pass_Forall f (P : Particle -> Prop) ps :
  (forall store p, P (f store p)) -> Forall P (pass f ps).
Proof.
  intros Hf. apply Forall_lookup. intros i q Hq.
  eapply (sph2d_loop_visited f P (seq 0 (length ps)) ps [] Hf);
    [|exact Hq|].
  - intros j r _ Hj. by apply not_elem_of_nil in Hj.
  - cbn [app]. apply elem_of_seq. apply lookup_lt_Some in Hq.
    unfold pass in Hq. rewrite sph2d_loop_length in Hq. lia.
Qed.

(** what every update keeps, the loop keeps *)
Lemma sph2d_pass_keeps f (P : Particle -> Prop) ps :
  (forall store p, P p -> P (f store p)) ->
  Forall P ps -> Forall P (pass f ps).
Proof.
  intros Hf. unfold pass. generalize (seq 0 (length ps)) as order.
  intros order. revert ps.
  induction order as [|a order IH]; intros ps Hps; [exact Hps|].
  cbn [fold_left]. apply IH. unfold in_place.
  destruct (ps !! a) as [p|] eqn:Hp; [|exact Hps].
  apply Forall_insert; [exact Hps|]. apply Hf.
  by eapply Forall_lookup_1.
Qed.

Ltac clamp2 :=
  cbv [clamp clamp_y_high clamp_x_high clamp_y_low clamp_x_low
       position velocity pressure inv_density x y];
  repeat (split_test;
          cbv [position velocity pressure inv_density x y] in * );
  cbv [dx] in *.

Lemma sph2d_clamp_in_box p : in_box (clamp p).
Proof.
  destruct p as [[px py] [vx vy] pr iv]. unfold in_box.
  clamp2; repeat split; lra.
Qed.

Lemma sph2d_clamp_inv_density p : inv_density (clamp p) = inv_density p.
Proof.
  destruct p as [[px py] [vx vy] pr iv].
  clamp2; reflexivity.
Qed.

Lemma sph2d_iteration_in_box ps : Forall in_box (iteration ps).
Proof.
  unfold iteration. apply sph2d_pass_Forall. intros store p.
  apply sph2d_clamp_in_box.
Qed.

Lemma cast_int_bounds (a : Q) (lo hi : Z) :
  (0 <= lo)%Z -> inject_Z lo <= a -> a <= inject_Z hi ->
  (lo <= cast_int a <= hi)%Z.
Proof.
  intros Hlo Hle Hge. destruct a as [n d]. unfold cast_int, Qle in *.
  cbn [Qnum Qden inject_Z] in *.
  rewrite Z.quot_div_nonneg by lia. split.
  - apply Z.div_le_lower_bound; lia.
  - apply Z.div_le_upper_bound; lia.
Qed.

Lemma coord_in_window p :
  in_box p ->
  (0 <= (coord p).1 <= 792)%Z /\ (80 <= (coord p).2 <= 792)%Z.
Proof.
  intros ([Hx Hx1] & [Hy Hy1]). unfold coord. cbv zeta. cbn [fst snd].
  cbv [times over x y]. fold (x (position p)) (y (position p)).
  unfold Qdiv. change (/ dx) with 100. cbv [dx] in *.
  split; apply cast_int_bounds; try lia.
  - change (inject_Z 0) with 0. lra.
  - change (inject_Z 792) with 792. lra.
  - change (inject_Z 80) with 80. lra.
  - change (inject_Z 792) with 792. lra.
Qed.

(** *** The density pass of the task *)

Lemma sph2d_same_motion_refl p : same_motion p p.
Proof. split; reflexivity. Qed.

Lemma sph2d_rho_fold_same p p' l l' acc :
  Forall2 same_motion l l' -> position p = position p' ->
  fold_left (rho_add p) l acc = fold_left (rho_add p') l' acc.
Proof.
  intros Hl Hp. revert acc.
  induction Hl as [|q q' l l' [Hq _] _ IH]; intros acc; [reflexivity|].
  cbn [fold_left]. rewrite <- IH. f_equal.
  unfold rho_add. by rewrite Hp, Hq.
Qed.

(** the update of the density pass reads positions only *)
Lemma sph2d_density_update_same l l' p p' :
  Forall2 same_motion l l' -> same_motion p p' ->
  density_update l p = density_update l' p'.
Proof.
  intros Hl [Hp Hv]. unfold density_update.
  rewrite (sph2d_rho_fold_same p p' l l' 0 Hl Hp).
  by rewrite Hp, Hv.
Qed.

Lemma sph2d_density_visits order (ps : list Particle) i :
  fold_left (in_place density_update) order ps !! i
  = (fun p => if decide (i ∈ order) then density_update ps p else p)
      <$> ps !! i.
Proof.
  induction order as [|a order IH] using rev_ind in i |- *.
  - cbn. destruct (ps !! i); cbn; [|reflexivity].
    destruct (decide (i ∈ [])) as [Hin|_]; [|reflexivity].
    by apply not_elem_of_nil in Hin.
  - rewrite fold_left_app. cbn [fold_left].
    set (l := fold_left (in_place density_update) order ps) in *.
    assert (Forall2 same_motion l ps) as Hsame.
    { apply Forall2_same_length_lookup. split.
      - apply sph2d_loop_length.
      - intros j q p Hq Hp. rewrite IH, Hp in Hq. cbn in Hq.
        injection Hq as <-.
        destruct (decide (j ∈ order)); split; reflexivity. }
    destruct (decide (i = a)) as [->|Hne].
    + destruct (l !! a) as [q|] eqn:Hq.
      * rewrite (sph2d_in_place_self _ l a q Hq).
        pose proof Hq as Hq'. rewrite IH in Hq'.
        destruct (ps !! a) as [p|] eqn:Hp; [|discriminate].
        cbn in Hq' |- *. injection Hq' as Hq'.
        destruct (decide (a ∈ order ++ [a])) as [_|Hn];
          [|exfalso; apply Hn; set_solver].
        f_equal. apply sph2d_density_update_same; [exact Hsame|].
        subst q. destruct (decide (a ∈ order)); split; reflexivity.
      * unfold in_place. rewrite Hq, Hq.
        rewrite IH in Hq. by destruct (ps !! a).
    + rewrite sph2d_in_place_other by congruence. rewrite IH.
      destruct (ps !! i) as [p|]; [|reflexivity]. cbn.
      destruct (decide (i ∈ order)) as [Hin|Hin],
        (decide (i ∈ order ++ [a])) as [Hin'|Hin'];
        try reflexivity; exfalso.
      * apply Hin', elem_of_app. by left.
      * apply elem_of_app in Hin' as [Hin'|Hin']; [contradiction|].
        apply list_elem_of_singleton in Hin'. contradiction.
Qed.

Lemma sph2d_density_pass_map ps :
  pass density_update ps = density_update ps <$> ps.
Proof.
  apply list_eq. intros i. unfold pass.
  rewrite sph2d_density_visits, list_lookup_fmap.
  destruct (ps !! i) as [p|] eqn:Hp; [|reflexivity]. cbn.
  destruct (decide (i ∈ seq 0 (length ps))) as [_|Hn]; [reflexivity|].
  exfalso. apply Hn. apply elem_of_seq.
  apply lookup_lt_Some in Hp. lia.
Qed.

Lemma sph2d_clear_pressure_same ps :
  Forall2 same_motion (clear_pressure ps) ps.
Proof.
  unfold clear_pressure. apply Forall2_fmap_l.
  apply Forall_Forall2_diag, Forall_forall. intros p _.
  split; reflexivity.
Qed.

Lemma sph2d_density_pass_clear ps :
  pass density_update (clear_pressure ps) = pass density_update ps.
Proof.
  rewrite !sph2d_density_pass_map. unfold clear_pressure at 2.
  rewrite <- list_fmap_compose. apply list_fmap_ext. intros i p _.
  cbn. apply sph2d_density_update_same.
  - apply sph2d_clear_pressure_same.
  - split; reflexivity.
Qed.

(** *** The density of the task is positive *)

Lemma sph2d_length2_self p :
  length2 (sub (position p) (position p)) == 0.
Proof. unfold length2, sub; cbn. ring. Qed.

Lemma sph2d_rho_add_ge p rho q : rho <= rho_add p rho q.
Proof.
  unfold rho_add. cbv zeta. destruct (Qlt_le_dec _ _); [|lra].
  set (t := (_ - _) ^ 3). pose proof (Q.le_max_l 0 t). lra.
Qed.

Lemma sph2d_rho_add_mono p rho rho' q :
  rho <= rho' -> rho_add p rho q <= rho_add p rho' q.
Proof.
  intros Hle. unfold rho_add. cbv zeta.
  destruct (Qlt_le_dec _ _); lra.
Qed.

Lemma sph2d_rho_fold_ge p l rho rho' :
  rho <= rho' -> rho <= fold_left (rho_add p) l rho'.
Proof.
  revert rho'. induction l as [|q l IH]; intros rho' Hle; [exact Hle|].
  cbn [fold_left]. apply IH.
  pose proof (sph2d_rho_add_ge p rho' q). lra.
Qed.

Lemma sph2d_rho_add_self p rho :
  rho + (h * h) ^ 3 <= rho_add p rho p.
Proof.
  unfold rho_add. cbv zeta.
  pose proof (sph2d_length2_self p) as H0.
  set (d := length2 _) in *.
  destruct (Qlt_le_dec d (h * h)) as [_|Hge].
  - assert ((h * h - d) ^ 3 == (h * h) ^ 3) as Heq by (by rewrite H0).
    pose proof (Q.le_max_r 0 ((h * h - d) ^ 3)). lra.
  - exfalso. rewrite H0 in Hge. cbv [h dx] in Hge. lra.
Qed.

Lemma sph2d_rho_fold_self p l rho :
  p ∈ l -> rho + (h * h) ^ 3 <= fold_left (rho_add p) l rho.
Proof.
  intros Hin. revert rho.
  induction l as [|q l IH]; intros rho; [by apply not_elem_of_nil in Hin|].
  cbn [fold_left]. apply elem_of_cons in Hin as [<-|Hin].
  - apply sph2d_rho_fold_ge, sph2d_rho_add_self.
  - pose proof (IH Hin (rho_add p rho q)).
    pose proof (sph2d_rho_add_ge p rho q). lra.
Qed.

Lemma sph2d_kernel_positive : 0 < (h * h) ^ 3.
Proof. apply Qpower_0_lt. cbv [h dx]. lra. Qed.

(** a particle of the vector leaves the density pass with the inverse
    of a density that is at least its own term *)
Lemma sph2d_density_update_positive ps p :
  p ∈ ps ->
  0 < inv_density (density_update ps p) /\
  (h * h) ^ 3 * (1 # 2) <= shade (density_update ps p).
Proof.
  intros Hin. unfold shade, density_update. cbv zeta. cbn [inv_density].
  pose proof (sph2d_rho_fold_self p ps 0 Hin) as Hlow.
  pose proof sph2d_kernel_positive as Hpos.
  set (s := (h * h) ^ 3) in *.
  set (r := fold_left (rho_add p) ps 0) in *.
  assert (0 < r) as Hr by lra.
  assert (r / rho0 == r) as -> by (unfold rho0; field).
  split.
  - unfold Qdiv. rewrite Qmult_1_l. by apply Qinv_lt_0_compat.
  - assert (1 / (1 / r) == r) as -> by (field; lra).
    lra.
Qed.

Lemma sph2d_force_update_inv_density store p :
  inv_density (force_update store p) = inv_density p.
Proof. unfold force_update. by rewrite sph2d_clamp_inv_density. Qed.

Lemma sph2d_iteration_positive ps :
  Forall (fun p => 0 < inv_density p /\ (h * h) ^ 3 * (1 # 2) <= shade p)
    (iteration ps).
Proof.
  unfold iteration. apply sph2d_pass_keeps.
  - intros store p. unfold shade.
    by rewrite sph2d_force_update_inv_density.
  - rewrite sph2d_density_pass_map. apply Forall_fmap, Forall_forall.
    intros p Hp. by apply sph2d_density_update_positive.
Qed.

Lemma sph2d_iteration_length ps : length (iteration ps) = length ps.
Proof. unfold iteration. by rewrite !sph2d_pass_length. Qed.

Lemma sph2d_iterations_length n ps :
  length (Nat.iter n iteration ps) = length ps.
Proof.
  induction n as [|n IH]; [reflexivity|].
  rewrite Nat.iter_succ, sph2d_iteration_length. exact IH.
Qed.

Lemma sph2d_frame_eq ps :
  frame ps
  = (Nat.iter 10 iteration (clear_pressure ps),
     (fun p => (coord p, shade p))
       <$> Nat.iter 10 iteration (clear_pressure ps)).
Proof. reflexivity. Qed.

Lemma sph2d_turn_in_box ps :
  length (Nat.iter 10 iteration (clear_pressure ps)) = length ps /\
  Forall in_box (Nat.iter 10 iteration (clear_pressure ps)).
Proof.
  split.
  - rewrite sph2d_iterations_length.
    unfold clear_pressure. apply length_fmap.
  - rewrite Nat.iter_succ. apply sph2d_iteration_in_box.
Qed.

Lemma sph2d_turn_positive ps :
  Forall (fun p => 0 < inv_density p /\ (h * h) ^ 3 * (1 # 2) <= shade p)
    (Nat.iter 10 iteration (clear_pressure ps)).
Proof. rewrite Nat.iter_succ. apply sph2d_iteration_positive. Qed.

Lemma sph2d_iteration_clear ps :
  iteration (clear_pressure ps) = iteration ps.
Proof. unfold iteration. by rewrite sph2d_density_pass_clear. Qed.

Lemma sph2d_turn_clear ps :
  Nat.iter 10 iteration (clear_pressure ps) = Nat.iter 10 iteration ps.
Proof.
  rewrite !(Nat.iter_succ_r 9). by rewrite sph2d_iteration_clear.
Qed.
End Sph2dFacts.

(** X9: one turn of the loop of [sph2d] keeps the number of particles
    and leaves every particle, wherever it started, inside the box of
    the four clamps: x in [0, 1 - dx] and y in [0.1, 1 - dx]. *)
Theorem sph2d_frame_in_box (ps : list Sph2d.Particle) :
  length (Sph2d.frame ps).1 = length ps /\
  Forall Sph2d.in_box (Sph2d.frame ps).1.
Proof.
  rewrite Sph2dFacts.sph2d_frame_eq. cbn [fst].
  apply Sph2dFacts.sph2d_turn_in_box.
Qed.

(** X10: every pixel [sph2d] writes lies inside the 800 x 800 canvas of
    its window: one pixel for each particle, with both coordinates
    between 0 and 792 (the vertical one at least 80), whatever the
    particles were at the start of the turn. *)
Theorem sph2d_pixels_in_window (ps : list Sph2d.Particle) :
  length (Sph2d.frame ps).2 = length ps /\
  Forall (fun w => (0 <= w.1.1 <= 792)%Z /\ (80 <= w.1.2 <= 792)%Z)
    (Sph2d.frame ps).2.
Proof.
  rewrite Sph2dFacts.sph2d_frame_eq. cbn [snd].
  destruct (Sph2dFacts.sph2d_turn_in_box ps) as [Hlen Hbox].
  revert Hlen Hbox.
  generalize (Nat.iter 10 Sph2d.iteration (Sph2d.clear_pressure ps)).
  intros l Hlen Hbox. split.
  - by rewrite length_fmap.
  - apply Forall_fmap. eapply Forall_impl; [exact Hbox|].
    intros p Hp. by apply Sph2dFacts.coord_in_window.
Qed.

(** X11: the loop that clears the pressure of every particle at the
    start of a turn has no effect: the density pass reads positions
    only and overwrites the pressure before anything reads it, so an
    iteration from the cleared vector is the iteration from the vector
    itself, and so is the whole turn. *)
Theorem sph2d_clear_pressure_dead (ps : list Sph2d.Particle) :
  Sph2d.iteration (Sph2d.clear_pressure ps) = Sph2d.iteration ps /\
  Sph2d.frame ps
  = (Nat.iter 10 Sph2d.iteration ps,
     (fun p => (Sph2d.coord p, Sph2d.shade p))
       <$> Nat.iter 10 Sph2d.iteration ps).
Proof.
  split; [apply Sph2dFacts.sph2d_iteration_clear|].
  rewrite Sph2dFacts.sph2d_frame_eq.
  by rewrite Sph2dFacts.sph2d_turn_clear.
Qed.

(** X12: the grey level [sph2d] draws a particle with is never a
    division by zero: after a turn every particle holds a positive
    inverse density, and its grey level is at least half its own kernel
    term (h^2)^3. *)
Theorem sph2d_shade_positive (ps : list Sph2d.Particle) :
  Forall (fun p => 0 < Sph2d.inv_density p) (Sph2d.frame ps).1 /\
  Forall (fun w => (Sph2d.h * Sph2d.h) ^ 3 * (1 # 2) <= w.2)
    (Sph2d.frame ps).2.
Proof.
  rewrite Sph2dFacts.sph2d_frame_eq. cbn [fst snd].
  pose proof (Sph2dFacts.sph2d_turn_positive ps) as Hpos. revert Hpos.
  generalize (Nat.iter 10 Sph2d.iteration (Sph2d.clear_pressure ps)).
  intros l Hpos. split.
  - eapply Forall_impl; [exact Hpos|]. by intros p [Hp _].
  - apply Forall_fmap. eapply Forall_impl; [exact Hpos|].
    by intros p [_ Hp].
Qed.
